(** * Pedestrian-crossing analytics of [analysis.py]

    A shallow embedding of the aggregation algorithms of class [Analysis]
    (crossing detection, time to cross, speed of crossing, start-of-crossing
    latency, traffic-equipment correlation and rate normalisation), and the
    properties of them that the specification states.

    Conventions of the embedding.
    - A detection table (a pandas DataFrame read from a CSV file) is the list
      of its rows in file order; the index label of a row is its position in
      that list (the default RangeIndex).
    - Numeric columns and Python floats are exact rationals [Q]: comparisons
      and the four operations are the mathematical ones.  Rounding, NaN and
      the infinities of binary floating point are not represented.
    - A Python exception is an explicit [Raise] outcome; a division whose
      divisor is zero is reported as [Raise ZeroDivisionError] (for numpy
      scalars Python would instead produce inf/nan, values that have no
      rational counterpart).
    - Dictionaries that are only read by iteration are association lists in
      insertion order; dictionaries that are built by keyed updates are
      [gmap]s. *)

From Stdlib Require Import ZArith QArith Qminmax Bool Lia.
From stdpp Require Import base option list sorting strings pretty gmap fin_maps.

Local Open Scope Z_scope.

(** ** Outcomes of Python computations *)

Inductive exn : Type :=
  | NameError
  | IndexError
  | KeyError
  | AttributeError
  | ZeroDivisionError.

Inductive outcome (A : Type) : Type :=
  | Ok (a : A)
  | Raise (e : exn).

Arguments Ok {A} a.
Arguments Raise {A} e.

#[global] Instance outcome_ret : MRet outcome := fun A a => Ok a.
#[global] Instance outcome_bind : MBind outcome := fun A B k m =>
  match m with
  | Ok a => k a
  | Raise e => Raise e
  end.

(** [for x in xs: acc = body(acc, x)], stopping at the first exception. *)
Fixpoint for_each {A S : Type} (body : S -> A -> outcome S) (xs : list A) (s : S)
  : outcome S :=
  match xs with
  | [] => Ok s
  | x :: rest => s' ← body s x; for_each body rest s'
  end.

(** [a / b] on numbers. *)
Definition divide (a b : Q) : outcome Q :=
  if Qeq_bool b 0 then Raise ZeroDivisionError else Ok (a / b)%Q.

(** ** Detection tables *)

Record row : Type := mkRow {
  YOLO_id : Z;       (* column "YOLO_id": object class *)
  Unique_Id : Z;     (* column "Unique Id": track identity *)
  X_center : Q;      (* column "X-center": horizontal centre, normalised *)
  Height : Q         (* column "Height" *)
}.

Definition dataframe : Type := list row.

(** [dataframe[dataframe["YOLO_id"] == id]] *)
Definition with_class (cls : Z) (df : dataframe) : dataframe :=
  List.filter (fun r => YOLO_id r =? cls) df.

(** [dataframe[dataframe["Unique Id"] == id]], also the group of [id] in
    [groupby("Unique Id")]. *)
Definition with_unique_id (id : Z) (df : dataframe) : dataframe :=
  List.filter (fun r => Unique_Id r =? id) df.

(** [Series.unique()]: the distinct values in order of first appearance. *)
Fixpoint unique (l : list Z) : list Z :=
  match l with
  | [] => []
  | x :: rest => x :: List.filter (fun y => negb (y =? x)) (unique rest)
  end.

(** [groupby("Unique Id").filter(p)]: the rows, in table order, of the groups
    on which [p] holds. *)
Definition groupby_filter (p : dataframe -> bool) (df : dataframe) : dataframe :=
  List.filter (fun r => p (with_unique_id (Unique_Id r) df)) df.

(** ** Crossing detector *)

(** [lambda x: (x["X-center"] <= min_x).any() and (x["X-center"] >= max_x).any()] *)
Definition touches_both (min_x max_x : Q) (x : dataframe) : bool :=
  existsb (fun r => Qle_bool (X_center r) min_x) x
  && existsb (fun r => Qle_bool max_x (X_center r)) x.

Definition pedestrian_crossing (df : dataframe) (min_x max_x : Q) (person_id : Z)
  : nat * list Z :=
  let crossed_ids := with_class person_id df in
  let filtered_crossed_ids := groupby_filter (touches_both min_x max_x) crossed_ids in
  let crossed_ids := unique (map Unique_Id filtered_crossed_ids) in
  (length crossed_ids, crossed_ids).

(** ** Series helpers *)

(** [Series.min()] and [Series.max()] of a non-empty column. *)
Definition series_min (x : Q) (xs : list Q) : Q := fold_left Qmin xs x.
Definition series_max (x : Q) (xs : list Q) : Q := fold_left Qmax xs x.

(** [sum(values)] *)
Definition Qsum (values : list Q) : Q := fold_left Qplus values 0%Q.

(** [Series.mean()] of a non-empty column. *)
Definition series_mean (xs : list Q) : Q :=
  (Qsum xs / inject_Z (Z.of_nat (length xs)))%Q.

(** The rows of a table paired with their index labels. *)
Definition labelled (df : dataframe) : list (nat * row) :=
  zip (seq 0 (length df)) df.

(** [sel.index[0]] *)
Definition index_first (sel : list (nat * row)) : outcome nat :=
  match sel with
  | [] => Raise IndexError
  | (i, _) :: _ => Ok i
  end.

(** [sel.index[-1]] *)
Definition index_last (sel : list (nat * row)) : outcome nat :=
  match last sel with
  | None => Raise IndexError
  | Some (i, _) => Ok i
  end.

(** ** Mapping index *)

(** One row of the mapping table, with the list-valued cells already parsed
    ([ast.literal_eval], and the split and strip of "videos").  The columns
    that the modelled functions only pass through (country, continent, GDP,
    traffic mortality, literacy rate) are left out. *)
Record mapping_row : Type := mkMapping {
  videos : list string;
  start_time : list (list Z);
  end_time : list (list Z);
  time_of_day : list (list Z);
  city : string;
  state : option string;          (* [None] is a missing (NaN) cell *)
  population_city : Q;
  population_country : Q;
  avg_height : Q;
  ISO_country : string;
  fps_list : list Q
}.

(** A video key "id_start" in the form [key.rsplit("_", 1)] and [int] give it. *)
Record video_key : Type := mkKey {
  key_id : string;
  key_start : Z
}.

#[global] Instance video_key_eq_dec : EqDecision video_key.
Proof. solve_decision. Defined.

(** The tuple [find_values_with_video_id] returns, under the names its callers
    unpack it to. *)
Record segment : Type := mkSegment {
  seg_video : string;
  seg_start : Z;
  seg_end : Z;
  seg_time_of_day : Z;
  seg_city : string;
  seg_state : string;
  seg_population : Q;             (* row["population_city"] *)
  seg_population_country : Q;     (* row["population_country"] *)
  seg_avg_height : Q;
  seg_iso_country : string;
  seg_fps : Q
}.

(** The inner loop [for s in start] with its [counter]. *)
Fixpoint find_start (start_ : Z) (start : list Z) (counter : nat) : option (Z * nat) :=
  match start with
  | [] => None
  | s :: rest =>
      if start_ =? s then Some (s, counter) else find_start start_ rest (S counter)
  end.

(** The loop over [zip(video_ids, start_times, end_times, time_of_day, fps_list)]. *)
Fixpoint find_in_videos (key : video_key) (r : mapping_row)
    (video_ids : list string) (start_times end_times time_of_day_s : list (list Z))
    (fps_s : list Q) : outcome (option segment) :=
  match video_ids, start_times, end_times, time_of_day_s, fps_s with
  | video :: video_ids', start :: start_times', end_ :: end_times',
    time_of_day_ :: time_of_day_s', fps :: fps_s' =>
      let continue_ :=
        find_in_videos key r video_ids' start_times' end_times' time_of_day_s' fps_s' in
      if String.eqb video (key_id key) then
        match find_start (key_start key) start 0 with
        | Some (s, counter) =>
            match end_ !! counter, time_of_day_ !! counter with
            | Some e, Some t =>
                Ok (Some {| seg_video := video; seg_start := s; seg_end := e;
                            seg_time_of_day := t; seg_city := city r;
                            seg_state := default "unknown"%string (state r);
                            seg_population := population_city r;
                            seg_population_country := population_country r;
                            seg_avg_height := avg_height r;
                            seg_iso_country := ISO_country r;
                            seg_fps := fps |})
            | _, _ => Raise IndexError
            end
        | None => continue_
        end
      else continue_
  | _, _, _, _, _ => Ok None
  end.

(** The result is [Ok None] when the function falls off its end. *)
Fixpoint find_values_with_video_id (df : list mapping_row) (key : video_key)
  : outcome (option segment) :=
  match df with
  | [] => Ok None
  | r :: rest =>
      found ← find_in_videos key r (videos r) (start_time r) (end_time r)
                (time_of_day r) (fps_list r);
      match found with
      | Some s => Ok (Some s)
      | None => find_values_with_video_id rest key
      end
  end.

(** [f'{city}_{state}_{condition}'] *)
Definition aggregate_key (s : segment) : string :=
  seg_city s +:+ "_" +:+ seg_state s +:+ "_" +:+ pretty (seg_time_of_day s).

(** [d.get(key)] on a dictionary kept in insertion order. *)
Fixpoint dict_get {K V : Type} `{EqDecision K} (d : list (K * V)) (key : K) : option V :=
  match d with
  | [] => None
  | (k, v) :: rest => if decide (k = key) then Some v else dict_get rest key
  end.

(** ** Event metrics: time to cross *)

(** One of the two [for value in sorted_grp['X-center']] loops: [first] is the
    extreme that raises the flag, [second] the one that ends the walk.  The
    result is the [count] at the [break], or [None] when the loop runs out. *)
Fixpoint walk (first second : Q) (values : list Q) (flag : bool) (count : nat)
  : option nat :=
  match values with
  | [] => None
  | value :: rest =>
      let flag := if Qeq_bool value first then true else flag in
      if flag then
        let count := S count in
        if Qeq_bool value second then Some count else walk first second rest flag count
      else walk first second rest flag count
  end.

(** The body of [for id in ids].  [fps] is [None] when the lookup found
    nothing and the name was never bound. *)
Definition time_to_cross_id (dataframe : dataframe) (fps : option Q)
    (var : gmap Z Q) (id : Z) : outcome (gmap Z Q) :=
  let sorted_grp := List.filter (fun ir => Unique_Id ir.2 =? id) (labelled dataframe) in
  let xs := map (fun ir => X_center ir.2) sorted_grp in
  match xs with
  | [] => Raise IndexError        (* min of nothing is NaN, [.index[0]] fails *)
  | x :: xs' =>
      let x_min := series_min x xs' in
      let x_max := series_max x xs' in
      x_min_index ← index_first
        (List.filter (fun ir => Qeq_bool (X_center ir.2) x_min) sorted_grp);
      x_max_index ← index_first
        (List.filter (fun ir => Qeq_bool (X_center ir.2) x_max) sorted_grp);
      let walked :=
        if (x_min_index <? x_max_index)%nat
        then walk x_min x_max xs false 0
        else walk x_max x_min xs false 0 in
      match walked with
      | None => Ok var
      | Some count =>
          match fps with
          | None => Raise NameError
          | Some fps =>
              t ← divide (inject_Z (Z.of_nat count)) fps;
              Ok (<[id := t]> var)
          end
      end
  end.

Definition time_to_cross (df_mapping : list mapping_row) (dataframe : dataframe)
    (ids : list Z) (video_id : video_key) : outcome (gmap Z Q) :=
  result ← find_values_with_video_id df_mapping video_id;
  let fps := seg_fps <$> result in
  for_each (time_to_cross_id dataframe fps) ids ∅.

(** ** Event metrics: speed of crossing *)

(** The threshold [1.2] of [if speed_ > 1.2]. *)
Definition speed_limit : Q := 12 # 10.

(** [speed_dict[k].append(v)] if [k in speed_dict] else [speed_dict[k] = [v]] *)
Definition dict_append (k : string) (v : Q) (d : gmap string (list Q))
  : gmap string (list Q) :=
  match d !! k with
  | Some values => <[k := values ++ [v]]> d
  | None => <[k := [v]]> d
  end.

(** [speed_] of one crossing event, from [grouped.get_group(id)] down to
    [(distance / time) / 100]. *)
Definition crossing_speed (value : option dataframe) (s : segment) (event : Z * Q)
  : outcome Q :=
  let '(id, time) := event in
  match value with
  | None => Raise AttributeError          (* [dfs.get(key)] gave [None] *)
  | Some value =>
      let grouped_with_id := with_unique_id id value in
      match map X_center grouped_with_id with
      | [] => Raise KeyError              (* [get_group] of an absent id *)
      | x :: xs =>
          let mean_height := series_mean (map Height grouped_with_id) in
          let min_x_center := series_min x xs in
          let max_x_center := series_max x xs in
          ppm ← divide mean_height (seg_avg_height s);
          distance ← divide (max_x_center - min_x_center)%Q ppm;
          pace ← divide distance time;
          Ok (pace / 100)%Q
      end
  end.

(** The body of [for id, time in df.items()]. *)
Definition speed_of_event (value : option dataframe) (s : segment)
    (speed_dict : gmap string (list Q)) (event : Z * Q)
  : outcome (gmap string (list Q)) :=
  speed_ ← crossing_speed value s event;
  if Qlt_le_dec speed_limit speed_
  then Ok speed_dict                      (* outlier: [continue] *)
  else Ok (dict_append (aggregate_key s) speed_ speed_dict).

(** The body of [for key, df in data.items()]. *)
Definition speed_of_segment (df_mapping : list mapping_row)
    (dfs : list (video_key * dataframe))
    (speed_dict : gmap string (list Q)) (item : video_key * list (Z * Q))
  : outcome (gmap string (list Q)) :=
  let '(key, df) := item in
  match df with
  | [] => Ok speed_dict
  | _ =>
      result ← find_values_with_video_id df_mapping key;
      match result with
      | None => Ok speed_dict
      | Some s => for_each (speed_of_event (dict_get dfs key) s) df speed_dict
      end
  end.

(** [city_country_map_] and [time_] are filled but never read or returned and
    are left out, as is the parameter [person_id], which the body never uses. *)
Definition calculate_speed_of_crossing (df_mapping : list mapping_row)
    (dfs : list (video_key * dataframe)) (data : list (video_key * list (Z * Q)))
  : outcome (gmap string (list Q)) :=
  for_each (speed_of_segment df_mapping dfs) data ∅.

(** [sum(values) / len(values)] *)
Definition average (values : list Q) : outcome Q :=
  divide (Qsum values) (inject_Z (Z.of_nat (length values))).

(** [{key: sum(values) / len(values) for key, values in d.items()}] *)
Definition averages (d : gmap string (list Q)) : outcome (gmap string Q) :=
  for_each (fun acc kv => a ← average kv.2; Ok (<[kv.1 := a]> acc))
           (map_to_list d) ∅.

Definition avg_speed_of_crossing (df_mapping : list mapping_row)
    (dfs : list (video_key * dataframe)) (data : list (video_key * list (Z * Q)))
  : outcome (gmap string Q) :=
  speed_array ← calculate_speed_of_crossing df_mapping dfs data;
  averages speed_array.

(** ** Event metrics: start-of-crossing latency *)

(** [x_values[i]] *)
Definition item (x_values : list Q) (i : nat) : outcome Q :=
  match x_values !! i with
  | Some v => Ok v
  | None => Raise IndexError
  end.

(** [range(0, stop, 10)] for [stop = len(x_values) - 10]. *)
Definition range_by_10 (len : nat) : list nat :=
  map (fun k => 10 * k)%nat (seq 0 ((len - 10 + 9) / 10)).

(** [x_values[i] - margin <= x_values[i+10] <= x_values[i] + margin] *)
Definition steady_left_to_right (margin xi xj : Q) : bool :=
  Qle_bool (xi - margin) xj && Qle_bool xj (xi + margin).

(** [x_values[i] - margin >= x_values[i+10] >= x_values[i] + margin] *)
Definition steady_right_to_left (margin xi xj : Q) : bool :=
  Qle_bool xj (xi - margin) && Qle_bool (xi + margin) xj.

(** The loop [for i in range(0, len(x_values)-10, 10)]; the result is the
    value stored in [data_cross] at the [break], if the loop breaks. *)
Fixpoint scan_strides (steady : Q -> Q -> bool) (x_values : list Q)
    (strides : list nat) (flag : bool) (consecutive_frame : nat)
  : outcome (option nat) :=
  match strides with
  | [] => Ok None
  | i :: rest =>
      xi ← item x_values i;
      xj ← item x_values (i + 10);
      if steady xi xj then
        let consecutive_frame := S consecutive_frame in
        let flag := if (consecutive_frame =? 3)%nat then true else flag in
        scan_strides steady x_values rest flag consecutive_frame
      else if flag then Ok (Some consecutive_frame)
      else scan_strides steady x_values rest flag 0
  end.

(** The body of [for unique_id, group_data in crossed_ids_grouped]. *)
Definition start_of_track (group_data : dataframe) : outcome (option nat) :=
  let x_values := map X_center group_data in
  initial_x ← item x_values 0;
  let mean_height := series_mean (map Height group_data) in
  let margin := (0.1 * mean_height)%Q in
  let steady :=
    if Qlt_le_dec initial_x 0.5
    then steady_left_to_right margin
    else steady_right_to_left margin in
  scan_strides steady x_values (range_by_10 (length x_values)) false 0.

(** The groups of [groupby("Unique Id")] are visited in ascending key order. *)
Definition group_keys (df : dataframe) : list Z :=
  merge_sort Z.le (unique (map Unique_Id df)).

(** [data_cross] after the loop over the groups, in insertion order. *)
Definition start_of_tracks (crossed_ids : dataframe)
  : outcome (list (Z * nat)) :=
  for_each (fun data_cross unique_id =>
              found ← start_of_track (with_unique_id unique_id crossed_ids);
              match found with
              | Some consecutive_frame =>
                  Ok (data_cross ++ [(unique_id, consecutive_frame)])
              | None => Ok data_cross
              end)
           (group_keys crossed_ids) [].

(** [[value / (fps/10) for key, value in data_cross.items()]] *)
Fixpoint to_seconds (fps : Q) (data_cross : list (Z * nat)) : outcome (list Q) :=
  match data_cross with
  | [] => Ok []
  | (_, value) :: rest =>
      t ← divide (inject_Z (Z.of_nat value)) (fps / 10)%Q;
      ts ← to_seconds fps rest;
      Ok (t :: ts)
  end.

(** The body of [for key, df in dfs.items()]. *)
Definition start_of_segment (df_mapping : list mapping_row) (person_id : Z)
    (time_dict : gmap string (list Q)) (entry : video_key * dataframe)
  : outcome (gmap string (list Q)) :=
  let '(key, df) := entry in
  let crossed_ids := with_class person_id df in
  result ← find_values_with_video_id df_mapping key;
  match result with
  | None => Ok time_dict
  | Some s =>
      data_cross ← start_of_tracks crossed_ids;
      match data_cross with
      | [] => Ok time_dict
      | _ =>
          times ← to_seconds (seg_fps s) data_cross;
          match time_dict !! aggregate_key s with
          | Some values => Ok (<[aggregate_key s := values ++ times]> time_dict)
          | None => Ok (<[aggregate_key s := times]> time_dict)
          end
      end
  end.

(** The parameter [data] of the source is never used and is left out. *)
Definition time_to_start_cross (df_mapping : list mapping_row)
    (dfs : list (video_key * dataframe)) (person_id : Z)
  : outcome (gmap string (list Q)) :=
  for_each (start_of_segment df_mapping person_id) dfs ∅.

Definition avg_time_to_start_cross (df_mapping : list mapping_row)
    (dfs : list (video_key * dataframe)) : outcome (gmap string Q) :=
  time_array ← time_to_start_cross df_mapping dfs 0;
  averages time_array.

(** ** Traffic-sign density *)

(** [d[key]] *)
Definition subscript {V : Type} (d : gmap string V) (key : string) : outcome V :=
  match d !! key with
  | Some v => Ok v
  | None => Raise KeyError
  end.

(** [dataframe[(dataframe["YOLO_id"] == 9) | (dataframe["YOLO_id"] == 11)]] *)
Definition instruments (df : dataframe) : dataframe :=
  List.filter (fun r => (YOLO_id r =? 9) || (YOLO_id r =? 11)) df.

(** The body of [for key, value in dfs.items()].  The function reads a name
    [count] that it never binds: the lookup falls through to the module
    level, where the main block binds [count] to the crossing count of the
    table it analysed last.  [count] is [None] when no such binding exists. *)
Definition traffic_signs_segment (count : option Z) (df_mapping : list mapping_row)
    (acc : gmap string Q * gmap string Q) (entry : video_key * dataframe)
  : outcome (gmap string Q * gmap string Q) :=
  let '(info, duration_) := acc in
  let '(key, dataframe) := entry in
  result ← find_values_with_video_id df_mapping key;
  match result with
  | None => Ok (info, duration_)
  | Some s =>
      let duration := seg_end s - seg_start s in
      let instrument_ids := unique (map Unique_Id (instruments dataframe)) in
      per_second ← divide (inject_Z (Z.of_nat (length instrument_ids))) (inject_Z duration);
      let count_ := (per_second * 60)%Q in
      let k := aggregate_key s in
      match info !! k with
      | Some old_count =>
          let new_count := (old_count * default 0%Q (duration_ !! k) + count_)%Q in
          match count with
          | None => Raise NameError
          | Some count =>
              let weight := match duration_ !! k with
                            | Some w => (w + inject_Z count)%Q
                            | None => inject_Z count
                            end in
              let duration_ := <[k := weight]> duration_ in
              updated ← divide new_count (default 0%Q (duration_ !! k));
              Ok (<[k := updated]> info, duration_)
          end
      | None => Ok (<[k := count_]> info, duration_)
      end
  end.

Definition traffic_signs (count : option Z) (df_mapping : list mapping_row)
    (dfs : list (video_key * dataframe)) : outcome (gmap string Q) :=
  acc ← for_each (traffic_signs_segment count df_mapping) dfs (∅, ∅);
  Ok acc.1.

(** ** Traffic-infrastructure correlator *)

(** [value.loc[first:last, 'YOLO_id']]: label slices include both ends. *)
Definition loc_YOLO_id (value : dataframe) (first_occurrence last_occurrence : nat)
  : list Z :=
  map YOLO_id (take (last_occurrence - first_occurrence + 1) (drop first_occurrence value)).

(** [any(series.isin([9, 11]))] *)
Definition any_isin_9_11 (series : list Z) : bool :=
  existsb (fun c => (c =? 9) || (c =? 11)) series.

(** The body of [for id, time in df.items()], on the pair
    [(counter_exists, counter_nt_exists)]. *)
Definition classify_event (value : option dataframe) (counters : Z * Z)
    (event : Z * Q) : outcome (Z * Z) :=
  let '(counter_exists, counter_nt_exists) := counters in
  let '(id, _) := event in
  match value with
  | None => Raise AttributeError
  | Some value =>
      let unique_id_indices :=
        List.filter (fun ir => Unique_Id ir.2 =? id) (labelled value) in
      first_occurrence ← index_first unique_id_indices;
      last_occurrence ← index_last unique_id_indices;
      let yolo_id_9_exists :=
        any_isin_9_11 (loc_YOLO_id value first_occurrence last_occurrence) in
      let yolo_id_9_not_exists :=
        negb (any_isin_9_11 (loc_YOLO_id value first_occurrence last_occurrence)) in
      let counter_exists :=
        if yolo_id_9_exists then counter_exists + 1 else counter_exists in
      let counter_nt_exists :=
        if yolo_id_9_not_exists then counter_nt_exists + 1 else counter_nt_exists in
      Ok (counter_exists, counter_nt_exists)
  end.

(** The four dictionaries [counter_1], [counter_2], [time_], [population_]. *)
Record equipment_state : Type := mkEquipment {
  counter_1 : gmap string Z;
  counter_2 : gmap string Z;
  time_ : gmap string Z;
  population_ : gmap string Q
}.

(** The body of [for key, df in data.items()]. *)
Definition equipment_segment (df_mapping : list mapping_row)
    (dfs : list (video_key * dataframe))
    (st : equipment_state) (entry : video_key * list (Z * Q))
  : outcome equipment_state :=
  let '(key, df) := entry in
  result ← find_values_with_video_id df_mapping key;
  match result with
  | None => Ok st
  | Some s =>
      let k := aggregate_key s in
      let duration := seg_end s - seg_start s in
      let time_' :=
        match time_ st !! k with
        | Some t => <[k := t + duration]> (time_ st)
        | None => <[k := duration]> (time_ st)
        end in
      '(counter_exists, counter_nt_exists) ←
        for_each (classify_event (dict_get dfs key)) df (0, 0);
      Ok {| counter_1 := <[k := default 0 (counter_1 st !! k) + counter_exists]> (counter_1 st);
            counter_2 := <[k := default 0 (counter_2 st !! k) + counter_nt_exists]> (counter_2 st);
            time_ := time_';
            population_ := <[k := seg_population s]> (population_ st) |}
  end.

Definition crossing_event_wt_traffic_equipment (df_mapping : list mapping_row)
    (dfs : list (video_key * dataframe)) (data : list (video_key * list (Z * Q)))
  : outcome equipment_state :=
  for_each (equipment_segment df_mapping dfs) data
           {| counter_1 := ∅; counter_2 := ∅; time_ := ∅; population_ := ∅ |}.

(** [(counts[key] * 60) / time[key] / population[key]] *)
Definition per_minute_per_head (counts time : gmap string Z)
    (population : gmap string Q) (key : string) : outcome Q :=
  c ← subscript counts key;
  t ← subscript time key;
  per_minute ← divide (inject_Z (c * 60)) (inject_Z t);
  p ← subscript population key;
  divide per_minute p.

Definition nomalised_crossing_wth_traffic_equipment (df_mapping : list mapping_row)
    (dfs : list (video_key * dataframe)) (data : list (video_key * list (Z * Q)))
  : outcome (gmap string Q * gmap string Q) :=
  st ← crossing_event_wt_traffic_equipment df_mapping dfs data;
  let with_traffic_instr := counter_1 st in
  let without_traffic_instr := counter_2 st in
  let time := time_ st in
  let population := population_ st in
  for_each (fun acc kv =>
              let '(var_exist, var_nt_exist) := acc in
              let key := kv.1 in
              a ← per_minute_per_head with_traffic_instr time population key;
              b ← per_minute_per_head without_traffic_instr time population key;
              Ok (<[key := a]> var_exist, <[key := b]> var_nt_exist))
           (map_to_list time) (∅, ∅).

(** ** Time to cross, in the words of the specification *)

(** Position of the first element on which [f] holds. *)
Fixpoint first_pos {A : Type} (f : A -> bool) (l : list A) : nat :=
  match l with
  | [] => 0
  | a :: rest => if f a then 0 else S (first_pos f rest)
  end.

(** Row position, within a track, at which the value [v] first occurs. *)
Definition first_index (v : Q) (xs : list Q) : nat :=
  first_pos (fun x => Qeq_bool x v) xs.

(** The number of rows from the first-occurring extreme of [xs] (the minimum
    if its first position is before the maximum's, else the maximum) up to
    and including the row where the opposite extreme is first reached. *)
Definition rows_walked (xs : list Q) : nat :=
  match xs with
  | [] => 0
  | x :: xs' =>
      let x_min := series_min x xs' in
      let x_max := series_max x xs' in
      let i_min := first_index x_min xs in
      let i_max := first_index x_max xs in
      if (i_min <? i_max)%nat
      then S (first_index x_max (drop i_min xs))
      else S (first_index x_min (drop i_max xs))
  end.

(** The seconds [time_to_cross] stores for a track, in the specification's
    terms. *)
Definition seconds_walked (dataframe : dataframe) (fps : Q) (id : Z) : Q :=
  (inject_Z (Z.of_nat (rows_walked (map X_center (with_unique_id id dataframe)))) / fps)%Q.

(** ** Properties of the aggregate dictionaries *)


Definition all_nonempty (d : gmap string (list Q)) : Prop :=
  forall k values, d !! k = Some values -> values <> [].

(** ** Totals per aggregate key *)

(** The aggregate key of a segment whose metadata lookup succeeds. *)
Definition key_of_segment (df_mapping : list mapping_row) (key : video_key)
  : option string :=
  match find_values_with_video_id df_mapping key with
  | Ok (Some s) => Some (aggregate_key s)
  | _ => None
  end.

(** The number of crossing events, over all segments of [data] that fall
    under the aggregate key [k]. *)
Definition crossing_events (df_mapping : list mapping_row) (k : string)
    (data : list (video_key * list (Z * Q))) : nat :=
  sum_list_with
    (fun entry : video_key * list (Z * Q) =>
       if decide (key_of_segment df_mapping entry.1 = Some k)
       then length entry.2 else 0%nat)
    data.

Definition Zsum (l : list Z) : Z := foldr Z.add 0 l.


(** The two counters of a key together count the crossing events of the
    segments visited so far. *)
Definition counters_add_up (df_mapping : list mapping_row)
    (visited : list (video_key * list (Z * Q))) (st : equipment_state) : Prop :=
  forall k, default 0 (counter_1 st !! k) + default 0 (counter_2 st !! k)
            = Z.of_nat (crossing_events df_mapping k visited).


(** ** Traffic-sign density, in the words of the specification *)

(** Folding one more segment, given as (rate per minute, duration), into a
    mean of the rates weighted by the durations accumulated so far. *)
Definition fold_rate (acc : Q * Q) (seg : Q * Q) : Q * Q :=
  let '(mean, total) := acc in
  let '(rate, duration) := seg in
  (((mean * total + rate * duration) / (total + duration))%Q, (total + duration)%Q).

Definition weighted_running_mean (segments : list (Q * Q)) : Q :=
  (fold_left fold_rate segments (0%Q, 0%Q)).1.

(** ** Sample inputs *)

Module Samples.

(** A track of a single row at x = 0.5. *)
Definition lone_track : dataframe := [mkRow 0 7 (1 # 2) 1].

(** One pedestrian walking from 0.1 to 0.9 in nine rows, beside a parked car. *)
Definition walker : dataframe :=
  [ mkRow 0 1 (1 # 10) 2; mkRow 2 5 (1 # 2) 1; mkRow 0 1 (2 # 10) 2;
    mkRow 0 1 (3 # 10) 2; mkRow 0 1 (4 # 10) 2; mkRow 0 1 (5 # 10) 2;
    mkRow 0 1 (6 # 10) 2; mkRow 0 1 (7 # 10) 2; mkRow 0 1 (8 # 10) 2;
    mkRow 0 1 (9 # 10) 2 ].

(** A mapping table with one city and one video cut in two segments, the
    first by day and the second by night, filmed at 10 frames per second. *)
Definition mapping : list mapping_row :=
  [ mkMapping ["abc"] [[0; 30]] [[30; 60]] [[0; 1]] "Delft" None
              1000 2000 170 "NLD" [10%Q] ].

Definition key_0 : video_key := mkKey "abc" 0.
Definition key_30 : video_key := mkKey "abc" 30.
Definition key_absent : video_key := mkKey "abc" 99.

Definition dfs : list (video_key * dataframe) := [(key_0, walker)].

(** The walker's crossing with a crossing time that makes its speed 1.2. *)
Definition data_at_limit : list (video_key * list (Z * Q)) :=
  [(key_0, [(1, 17 # 30)])].

(** The same crossing, a little faster. *)
Definition data_above_limit : list (video_key * list (Z * Q)) :=
  [(key_0, [(1, 16 # 30)])].

(** A pedestrian of height 1 who stands at [x_wait] for 31 rows and is at
    [x_far] for the next 10. *)
Definition waiting_track (id : Z) (x_wait x_far : Q) : dataframe :=
  replicate 31 (mkRow 0 id x_wait 1) ++ replicate 10 (mkRow 0 id x_far 1).

Definition left_starter : dataframe := waiting_track 3 (4 # 10) (9 # 10).
Definition right_starter : dataframe := waiting_track 4 (6 # 10) (1 # 10).

(** One city whose two segments are both filmed by day; the city has 500
    inhabitants and the country 1000. *)
Definition mapping_day : list mapping_row :=
  [ mkMapping ["abc"] [[0; 30]] [[30; 60]] [[0; 0]] "Delft" None
              500 1000 170 "NLD" [10%Q] ].

Definition person (id : Z) : row := mkRow 0 id (1 # 2) 1.
Definition traffic_light : row := mkRow 9 50 (1 # 2) 1.

(** Two, respectively four, pedestrians seen before and after a traffic light. *)
Definition two_by_light : dataframe :=
  [person 1; person 2; traffic_light; person 1; person 2].
Definition four_by_light : dataframe :=
  [person 1; person 2; person 3; person 4; traffic_light;
   person 1; person 2; person 3; person 4].

Definition dfs_lights : list (video_key * dataframe) :=
  [(key_0, two_by_light); (key_30, four_by_light)].

Definition data_lights : list (video_key * list (Z * Q)) :=
  [(key_0, [(1, 1%Q); (2, 1%Q)]);
   (key_30, [(1, 1%Q); (2, 1%Q); (3, 1%Q); (4, 1%Q)])].

(** A pedestrian who is gone before the traffic light appears, and one who
    is still there after it. *)
Definition one_by_light : dataframe :=
  [person 1; person 1; person 2; traffic_light; person 2].

Definition dfs_mixed : list (video_key * dataframe) :=
  [(key_0, one_by_light); (key_30, four_by_light)].

(** The walker and the two waiting pedestrians in one table. *)
Definition dfs_all : list (video_key * dataframe) :=
  [(key_0, walker ++ left_starter ++ right_starter)].

(** One track of 20 rows, rising evenly from 0.1 to 0.9. *)
Definition twenty_rows : dataframe :=
  map (fun k => mkRow 0 1 ((1 # 10) + inject_Z (Z.of_nat k) * (8 # 190))%Q 1) (seq 0 20).

(** The four dictionaries the correlator returns on [dfs_mixed]. *)
Definition state_mixed : equipment_state :=
  {| counter_1 := {[ "Delft_unknown_0"%string := 5 ]};
     counter_2 := {[ "Delft_unknown_0"%string := 1 ]};
     time_ := {[ "Delft_unknown_0"%string := 60 ]};
     population_ := {[ "Delft_unknown_0"%string := 500%Q ]} |}.

(** A segment with one traffic light, and one with two lights and a stop sign. *)
Definition one_sign : dataframe := [mkRow 9 50 (1 # 2) 1; mkRow 9 50 (1 # 2) 1].
Definition three_signs : dataframe :=
  [mkRow 9 50 (1 # 2) 1; mkRow 11 51 (1 # 2) 1; mkRow 9 52 (1 # 2) 1].

Definition dfs_signs : list (video_key * dataframe) :=
  [(key_0, one_sign); (key_30, three_signs)].

(** The two segments of [dfs_signs] as (rate per minute, duration). *)
Definition sign_rates : list (Q * Q) := [(2%Q, 30%Q); (6%Q, 30%Q)].

End Samples.

From Stdlib Require Qabs.

(** ** Further functions of [Analysis] *)

(** [count_object]: [ngroups] of the rows of a class grouped by "Unique Id". *)
Definition count_object (dataframe : dataframe) (id : Z) : nat :=
  let crossed_ids := with_class id dataframe in
  length (unique (map Unique_Id crossed_ids)).

(** [calculate_total_seconds]: the two nested [zip] loops over the start and
    end times of every row of the mapping table. *)
Definition calculate_total_seconds (df : list mapping_row) : Z :=
  fold_left
    (fun grand_total_seconds r =>
       fold_left
         (fun total (se : list Z * list Z) =>
            fold_left (fun total (p : Z * Z) => total + (p.2 - p.1))
                      (zip se.1 se.2) total)
         (zip (start_time r) (end_time r)) grand_total_seconds)
    df 0.

(** [get_value], for a text column [column1] and a text column [column2]
    that may hold missing (NaN) cells; the result is [None] when no row
    matches.  The value "unknown" of [column_value2] stands for a missing
    cell. *)
Definition get_value {B : Type} (df : list mapping_row)
    (column1 : mapping_row -> string) (column_value1 : string)
    (column2 : mapping_row -> option string) (column_value2 : string)
    (target : mapping_row -> B) : option B :=
  let result :=
    if String.eqb column_value2 "unknown"
    then List.filter (fun r => String.eqb (column1 r) column_value1
                               && match column2 r with None => true | Some _ => false end)
                     df
    else List.filter (fun r => String.eqb (column1 r) column_value1
                               && match column2 r with
                                  | Some v => String.eqb v column_value2
                                  | None => false
                                  end)
                     df in
  head (map target result).

(** [pedestrian_cross_per_city]: an entry of [pedestrian_crossing_count] is
    the pair of its "count" and its "ids". *)
Definition pedestrian_cross_per_city
    (pedestrian_crossing_count : list (video_key * (nat * list Z)))
    (df_mapping : list mapping_row) : outcome (gmap string Z) :=
  let count := map (fun kv : video_key * (nat * list Z) => (kv.1, kv.2.1))
                   pedestrian_crossing_count in
  for_each
    (fun (final : gmap string Z) (kc : video_key * nat) =>
       result ← find_values_with_video_id df_mapping kc.1;
       match result with
       | None => Ok final
       | Some s =>
           let city_time_key := aggregate_key s in
           match final !! city_time_key with
           | Some total => Ok (<[city_time_key := total + Z.of_nat kc.2]> final)
           | None => Ok (<[city_time_key := Z.of_nat kc.2]> final)
           end
       end)
    count ∅.

(** ** The analysis loop of the main block *)

(** The thresholds of [Analysis.pedestrian_crossing(dfs[key], 0.45, 0.55, 0)]. *)
Definition road_min_x : Q := 0.45.
Definition road_max_x : Q := 0.55.

(** The items of the dictionary [time_to_cross] built, in insertion order:
    the identities of [ids] that received a time. *)
Definition items_in_order (ids : list Z) (var : gmap Z Q) : list (Z * Q) :=
  omap (fun id => match var !! id with Some t => Some (id, t) | None => None end) ids.

(** One round of [for key, value in dfs.items()] of the main block, on the
    pair [(pedestrian_crossing_count, data)]; the object counters that the
    loop also keeps are left out. *)
Definition analyse_table (df_mapping : list mapping_row)
    (acc : list (video_key * (nat * list Z)) * list (video_key * list (Z * Q)))
    (entry : video_key * dataframe)
  : outcome (list (video_key * (nat * list Z)) * list (video_key * list (Z * Q))) :=
  let '(pedestrian_crossing_count, data) := acc in
  let '(key, df) := entry in
  let '(count, ids) := pedestrian_crossing df road_min_x road_max_x 0 in
  var ← time_to_cross df_mapping df ids key;
  Ok (pedestrian_crossing_count ++ [(key, (count, ids))],
      data ++ [(key, items_in_order ids var)]).

Definition analyse_tables (df_mapping : list mapping_row)
    (dfs : list (video_key * dataframe))
  : outcome (list (video_key * (nat * list Z)) * list (video_key * list (Z * Q))) :=
  for_each (analyse_table df_mapping) dfs ([], []).

(** ** Properties of the mapping lookup *)

(** The segment [s] is the entry of the mapping row [r] for the video and
    start time of [key]: position [i] in the per-video lists, position [j]
    in that video's lists of segments. *)
Definition segment_of_row (key : video_key) (r : mapping_row) (s : segment) : Prop :=
  exists i j starts ends tods,
    videos r !! i = Some (key_id key) /\
    start_time r !! i = Some starts /\ starts !! j = Some (key_start key) /\
    end_time r !! i = Some ends /\ ends !! j = Some (seg_end s) /\
    time_of_day r !! i = Some tods /\ tods !! j = Some (seg_time_of_day s) /\
    fps_list r !! i = Some (seg_fps s) /\
    seg_video s = key_id key /\ seg_start s = key_start key /\
    seg_city s = city r /\ seg_state s = default "unknown"%string (state r) /\
    seg_population s = population_city r /\
    seg_population_country s = population_country r /\
    seg_avg_height s = avg_height r /\ seg_iso_country s = ISO_country r.

(** The sum of the counts of the entries of [count] whose segment falls under
    the aggregate key [k]. *)
Definition counted_for_key (df_mapping : list mapping_row) (k : string)
    (count : list (video_key * nat)) : nat :=
  sum_list_with
    (fun kc : video_key * nat =>
       if decide (key_of_segment df_mapping kc.1 = Some k) then kc.2 else 0%nat)
    count.

(** What [final] holds after the entries [visited]. *)
Definition totals_per_key (df_mapping : list mapping_row)
    (visited : list (video_key * nat)) (final : gmap string Z) : Prop :=
  forall k,
    (is_Some (final !! k)
     <-> exists kc, kc ∈ visited /\ key_of_segment df_mapping kc.1 = Some k) /\
    default 0 (final !! k) = Z.of_nat (counted_for_key df_mapping k visited).

(** ** Traffic signs of segments with distinct aggregate keys *)

(** The aggregate keys of the entries whose metadata is found, in order. *)
Definition aggregate_keys {A : Type} (df_mapping : list mapping_row)
    (entries : list (video_key * A)) : list string :=
  omap (fun e : video_key * A => key_of_segment df_mapping e.1) entries.

(** [(len(instrument_ids) / duration) * 60] of a table and its segment. *)
Definition instruments_per_minute (df : dataframe) (s : segment) : Q :=
  (inject_Z (Z.of_nat (length (unique (map Unique_Id (instruments df)))))
   / inject_Z (seg_end s - seg_start s) * 60)%Q.

(** ** Traffic-control objects within a track's span *)


(** ** Seconds of the mapping table, row by row *)

(** The seconds of one video: the sum over its paired start and end times. *)
Definition video_seconds (se : list Z * list Z) : Z :=
  Zsum (map (fun p : Z * Z => p.2 - p.1) (zip se.1 se.2)).

Definition row_seconds (r : mapping_row) : Z :=
  Zsum (map video_seconds (zip (start_time r) (end_time r))).

(** ** Aggregate keys taken apart again *)

(** The character "_" (code 95). *)
Definition underscore : Ascii.ascii :=
  Ascii.Ascii true true true true true false true false.

(** [s.split(sep)] for a separator of one character. *)
Fixpoint split_on (sep : Ascii.ascii) (s : string) : list string :=
  match s with
  | EmptyString => [EmptyString]
  | String c rest =>
      if Ascii.eqb c sep then EmptyString :: split_on sep rest
      else match split_on sep rest with
           | part :: parts => String c part :: parts
           | [] => [String c EmptyString]
           end
  end.

(** [city, state, condition = key.split('_')] of the plotting functions;
    [None] is the [ValueError] that the unpacking raises when the key does
    not have exactly three parts. *)
Definition split_key (key : string) : option (string * string * string) :=
  match split_on underscore key with
  | [city; state; condition] => Some (city, state, condition)
  | _ => None
  end.

(** The number of occurrences of a character in a string. *)
Fixpoint occurrences (c : Ascii.ascii) (s : string) : nat :=
  match s with
  | EmptyString => 0
  | String c' rest => (if Ascii.eqb c' c then 1 else 0) + occurrences c rest
  end.

(** ** Display names of cities *)

(** [s.split("_", 1)] when "_" occurs in [s]: the text before the first
    underscore and the text after it; [None] when there is none. *)
Fixpoint split_first (sep : Ascii.ascii) (s : string) : option (string * string) :=
  match s with
  | EmptyString => None
  | String c rest =>
      if Ascii.eqb c sep then Some (EmptyString, rest)
      else match split_first sep rest with
           | Some (before, after) => Some (String c before, after)
           | None => None
           end
  end.

(** [str.lower()] on ASCII text: the letters A to Z are moved to a to z and
    every other character is kept. *)
Definition lower_char (c : Ascii.ascii) : Ascii.ascii :=
  let n := Ascii.N_of_ascii c in
  if ((65 <=? n) && (n <=? 90))%N then Ascii.ascii_of_N (n + 32) else c.

Fixpoint lower (s : string) : string :=
  match s with
  | EmptyString => EmptyString
  | String c rest => String (lower_char c) (lower rest)
  end.

(** [format_city_state] on a single string. *)
Definition format_city_state_str (city_state : string) : string :=
  match split_first underscore city_state with
  | Some (city, state) =>
      if negb (String.eqb (lower state) "unknown")
      then city +:+ ", " +:+ state
      else city
  | None => city_state
  end.

(** [format_city_state] on a list of strings: the loop that fills
    [formatted_list]. *)
Definition format_city_state_list (city_state : list string) : list string :=
  fold_left
    (fun formatted_list cs =>
       match split_first underscore cs with
       | Some (city, state) =>
           if negb (String.eqb (lower state) "unknown")
           then formatted_list ++ [city +:+ ", " +:+ state]
           else formatted_list ++ [city]
       | None => formatted_list ++ [cs]
       end)
    city_state [].

(** ** Annotations of the scatter plot *)

(** An annotation: the entries "x" and "y" of the dictionary and, in
    [ann_text], the entries that [adjust_annotation_positions] only copies. *)
Record annotation : Type := mkAnnotation {
  ann_x : Q;
  ann_y : Q;
  ann_text : string
}.

(** [abs(ann['x'] - other_ann['x']) < 0.2 and abs(ann['y'] - other_ann['y']) < 0.2] *)
Definition overlaps (ann other_ann : annotation) : bool :=
  (if Qlt_le_dec (Qabs.Qabs (ann_x ann - ann_x other_ann)) 0.2 then true else false)
  && (if Qlt_le_dec (Qabs.Qabs (ann_y ann - ann_y other_ann)) 0.2 then true else false).

(** The inner loop [for other_ann in adjusted_annotations] on [adjusted_ann]. *)
Definition adjust_against (ann : annotation) (adjusted_annotations : list annotation)
    (adjusted_ann : annotation) : annotation :=
  fold_left
    (fun adjusted_ann other_ann =>
       if overlaps ann other_ann
       then {| ann_x := ann_x adjusted_ann;
               ann_y := (ann_y adjusted_ann + 0.01)%Q;
               ann_text := ann_text adjusted_ann |}
       else adjusted_ann)
    adjusted_annotations adjusted_ann.

Definition adjust_annotation_positions (annotations : list annotation)
  : list annotation :=
  fold_left
    (fun adjusted_annotations ann =>
       adjusted_annotations ++ [adjust_against ann adjusted_annotations ann])
    annotations [].

(** ** Further sample inputs *)

Module MoreSamples.

(** Crossing counts of three tables; the third has no metadata. *)
Definition crossing_counts : list (video_key * (nat * list Z)) :=
  [ (Samples.key_0, (2%nat, [1; 2]));
    (Samples.key_30, (4%nat, [1; 2; 3; 4]));
    (Samples.key_absent, (7%nat, [])) ].

(** What the analysis loop of the main block returns on [Samples.dfs]. *)
Definition analysed_counts : list (video_key * (nat * list Z)) :=
  [(Samples.key_0, (1%nat, [1]))].
Definition analysed_data : list (video_key * list (Z * Q)) :=
  [(Samples.key_0, [(1, 9 # 10)])].

(** The four dictionaries of the correlator on that data. *)
Definition analysed_state : equipment_state :=
  {| counter_1 := {[ "Delft_unknown_0"%string := 0 ]};
     counter_2 := {[ "Delft_unknown_0"%string := 1 ]};
     time_ := {[ "Delft_unknown_0"%string := 30 ]};
     population_ := {[ "Delft_unknown_0"%string := 1000%Q ]} |}.

(** A segment of a city whose name has an underscore. *)
Definition segment_underscore : segment :=
  mkSegment "abc" 0 30 0 "New_York" "NY" 1000 2000 170 "USA" 10.

(** A mapping whose only segment starts and ends at second 0, and what the
    correlator returns for two crossings in it. *)
Definition mapping_no_duration : list mapping_row :=
  [ mkMapping ["abc"] [[0]] [[0]] [[0]] "Delft" None 500 1000 170 "NLD" [10%Q] ].

Definition data_two : list (video_key * list (Z * Q)) :=
  [(Samples.key_0, [(1, 1%Q); (2, 1%Q)])].

Definition state_no_duration : equipment_state :=
  {| counter_1 := {[ "Delft_unknown_0"%string := 2 ]};
     counter_2 := {[ "Delft_unknown_0"%string := 0 ]};
     time_ := {[ "Delft_unknown_0"%string := 0 ]};
     population_ := {[ "Delft_unknown_0"%string := 500%Q ]} |}.

End MoreSamples.
(** *** Facts about the table operations *)

Lemma elem_of_with_class cls df r :
  r ∈ with_class cls df <-> r ∈ df /\ YOLO_id r = cls.
Proof.
  unfold with_class. rewrite !list_elem_of_In, filter_In, Z.eqb_eq. tauto.
Qed.

Lemma elem_of_with_unique_id id df r :
  r ∈ with_unique_id id df <-> r ∈ df /\ Unique_Id r = id.
Proof.
  unfold with_unique_id. rewrite !list_elem_of_In, filter_In, Z.eqb_eq. tauto.
Qed.

Lemma elem_of_unique l x : x ∈ unique l <-> x ∈ l.
Proof.
  induction l as [|y l IH]; simpl; [reflexivity|].
  rewrite !elem_of_cons, list_elem_of_In, filter_In, <- list_elem_of_In, IH.
  rewrite negb_true_iff, Z.eqb_neq.
  destruct (decide (x = y)); tauto.
Qed.

Lemma NoDup_filter_bool {A} (f : A -> bool) (l : list A) :
  NoDup l -> NoDup (List.filter f l).
Proof.
  induction 1 as [|x l Hx Hl IH]; simpl; [constructor|].
  destruct (f x); [|assumption].
  constructor; [|assumption].
  rewrite list_elem_of_In, filter_In, <- list_elem_of_In. tauto.
Qed.

Lemma NoDup_unique l : NoDup (unique l).
Proof.
  induction l as [|x l IH]; simpl; constructor.
  - rewrite list_elem_of_In, filter_In, negb_true_iff, Z.eqb_neq. tauto.
  - by apply NoDup_filter_bool.
Qed.

Lemma touches_both_spec min_x max_x x :
  touches_both min_x max_x x = true <->
  (exists r, r ∈ x /\ (X_center r <= min_x)%Q) /\
  (exists r, r ∈ x /\ (max_x <= X_center r)%Q).
Proof.
  unfold touches_both. rewrite andb_true_iff, !existsb_exists.
  setoid_rewrite Qle_bool_iff. setoid_rewrite list_elem_of_In. tauto.
Qed.

Lemma elem_of_groupby_filter p df r :
  r ∈ groupby_filter p df <-> r ∈ df /\ p (with_unique_id (Unique_Id r) df) = true.
Proof. unfold groupby_filter. rewrite !list_elem_of_In, filter_In. tauto. Qed.

(** Membership in the identity list that [pedestrian_crossing] returns. *)
Lemma elem_of_pedestrian_crossing df min_x max_x person_id id :
  id ∈ (pedestrian_crossing df min_x max_x person_id).2 <->
  (exists r, r ∈ df /\ Unique_Id r = id /\ YOLO_id r = person_id
             /\ (X_center r <= min_x)%Q) /\
  (exists r, r ∈ df /\ Unique_Id r = id /\ YOLO_id r = person_id
             /\ (max_x <= X_center r)%Q).
Proof.
  unfold pedestrian_crossing; simpl.
  rewrite elem_of_unique, list_elem_of_fmap.
  setoid_rewrite elem_of_groupby_filter.
  setoid_rewrite touches_both_spec.
  setoid_rewrite elem_of_with_unique_id.
  setoid_rewrite elem_of_with_class.
  split.
  - intros (r & -> & (Hr & Hc) & (r1 & ((H1 & C1) & U1) & L1) & (r2 & ((H2 & C2) & U2) & L2)).
    split; [exists r1 | exists r2]; subst; auto.
  - intros [(r1 & H1 & U1 & C1 & L1) (r2 & H2 & U2 & C2 & L2)].
    exists r1. subst. repeat split; auto.
    + exists r1; auto.
    + exists r2; auto.
Qed.

(** ** Crossing detector *)

(** C1: for every detection table, thresholds and object class,
    [pedestrian_crossing] returns the identities (each once) of exactly the
    tracks of that class that have a row at or left of [min_x] and a row at
    or right of [max_x], and the count is the number of those identities.
    Rows of other classes do not count, and a track meeting only one of the
    two conditions is left out.  The thresholds need not lie in [0,1]. *)
Theorem pedestrian_crossing_exact df min_x max_x person_id :
  let result := pedestrian_crossing df min_x max_x person_id in
  result.1 = length result.2 /\
  NoDup result.2 /\
  forall id, id ∈ result.2 <->
    (exists r, r ∈ df /\ Unique_Id r = id /\ YOLO_id r = person_id
               /\ (X_center r <= min_x)%Q) /\
    (exists r, r ∈ df /\ Unique_Id r = id /\ YOLO_id r = person_id
               /\ (max_x <= X_center r)%Q).
Proof.
  intros result. split; [reflexivity|]. split.
  - apply NoDup_unique.
  - intros id. apply elem_of_pedestrian_crossing.
Qed.

(** C9, as the code has it: a track of exactly one row is reported only when
    that row lies in the closed band from [max_x] to [min_x], so only when
    [max_x <= min_x]; for thresholds given in order ([min_x <= max_x]) this
    means [min_x == max_x]. *)
Theorem single_row_track_crossing df min_x max_x person_id id r :
  with_unique_id id df = [r] ->
  id ∈ (pedestrian_crossing df min_x max_x person_id).2 ->
  (max_x <= X_center r)%Q /\ (X_center r <= min_x)%Q /\
  ((min_x <= max_x)%Q -> (min_x == max_x)%Q).
Proof.
  intros Hone Hin.
  apply elem_of_pedestrian_crossing in Hin.
  destruct Hin as [(r1 & H1 & U1 & _ & L1) (r2 & H2 & U2 & _ & L2)].
  assert (E1 : r1 = r).
  { assert (H : r1 ∈ with_unique_id id df) by (apply elem_of_with_unique_id; auto).
    rewrite Hone in H. by apply list_elem_of_singleton in H. }
  assert (E2 : r2 = r).
  { assert (H : r2 ∈ with_unique_id id df) by (apply elem_of_with_unique_id; auto).
    rewrite Hone in H. by apply list_elem_of_singleton in H. }
  subst r1 r2. repeat split; try assumption.
  intros Hord. apply Qle_antisym; [assumption|].
  eapply Qle_trans; eassumption.
Qed.

Lemma single_row_track_crossing_witness :
  (2 # 5 <= 1 # 2)%Q /\ (1 # 2 <= 3 # 5)%Q /\
  ((3 # 5 <= 2 # 5)%Q -> (3 # 5 == 2 # 5)%Q).
Proof.
  apply (single_row_track_crossing Samples.lone_track (3 # 5) (2 # 5) 0 7
           (mkRow 0 7 (1 # 2) 1)).
  - reflexivity.
  - vm_compute. left.
Defined.

(** C9 as stated fails: with [min_x = 0.6] and [max_x = 0.4] the one-row
    track at 0.5 is reported although the thresholds differ. *)
Lemma single_row_track_reported :
  with_unique_id 7 Samples.lone_track = [mkRow 0 7 (1 # 2) 1] /\
  7 ∈ (pedestrian_crossing Samples.lone_track (3 # 5) (2 # 5) 0).2 /\
  ~ (3 # 5 == 2 # 5)%Q.
Proof.
  split; [reflexivity|]. split.
  - vm_compute. left.
  - intros H. vm_compute in H. discriminate H.
Qed.

(** ** Time to cross *)

Lemma labelled_lower_bound n (l : dataframe) ir :
  ir ∈ zip (seq n (length l)) l -> (n <= ir.1)%nat.
Proof.
  revert n. induction l as [|r l IH]; intros n; simpl.
  - intros H. by apply elem_of_nil in H.
  - rewrite elem_of_cons. intros [-> | H]; simpl; [lia|].
    apply IH in H. lia.
Qed.

Lemma filter_labelled_rows (f : row -> bool) n (l : dataframe) :
  map snd (List.filter (fun ir => f ir.2) (zip (seq n (length l)) l)) = List.filter f l.
Proof.
  revert n. induction l as [|r l IH]; intros n; simpl; [reflexivity|].
  destruct (f r); simpl; by rewrite IH.
Qed.

Lemma first_pos_map {A B} (g : A -> B) (f : B -> bool) (l : list A) :
  first_pos f (map g l) = first_pos (fun a => f (g a)) l.
Proof. induction l as [|a l IH]; simpl; [reflexivity|]. by rewrite IH. Qed.

Lemma existsb_map {A B} (g : A -> B) (f : B -> bool) (l : list A) :
  existsb f (map g l) = existsb (fun a => f (g a)) l.
Proof. induction l as [|a l IH]; simpl; [reflexivity|]. by rewrite IH. Qed.

Lemma index_first_filter_elem (P : nat * row -> bool) G :
  existsb P G = true ->
  exists ir, ir ∈ G /\ index_first (List.filter P G) = Ok ir.1.
Proof.
  induction G as [|g G IH]; simpl; [discriminate|].
  destruct (P g) eqn:E; simpl.
  - intros _. exists g. split; [left|]. by destruct g.
  - intros H. destruct (IH H) as (ir & Hin & Hix). exists ir. split; [by right|done].
Qed.

(** On the labelled rows of a track, comparing the labels of two first
    occurrences is comparing their positions within the track. *)
Lemma label_order_is_row_order (U P Q : nat * row -> bool) n (l : dataframe) :
  let G := List.filter U (zip (seq n (length l)) l) in
  existsb P G = true -> existsb Q G = true ->
  exists a b, index_first (List.filter P G) = Ok a /\
              index_first (List.filter Q G) = Ok b /\
              (a <? b)%nat = (first_pos P G <? first_pos Q G)%nat.
Proof.
  revert n. induction l as [|r l IH]; intros n; simpl; [discriminate|].
  destruct (U (n, r)) eqn:EU; [|apply IH].
  simpl. intros HP HQ.
  destruct (P (n, r)) eqn:EP, (Q (n, r)) eqn:EQ; simpl in *.
  - exists n, n. by rewrite Nat.ltb_irrefl.
  - destruct (index_first_filter_elem _ _ HQ) as (ir & Hin & Hix).
    exists n, ir.1. repeat split; [done|].
    apply list_elem_of_In, filter_In in Hin as [Hin _].
    apply list_elem_of_In, labelled_lower_bound in Hin.
    apply Nat.ltb_lt. lia.
  - destruct (index_first_filter_elem _ _ HP) as (ir & Hin & Hix).
    exists ir.1, n. repeat split; [done|].
    apply list_elem_of_In, filter_In in Hin as [Hin _].
    apply list_elem_of_In, labelled_lower_bound in Hin.
    apply Nat.ltb_ge. lia.
  - destruct (IH (S n) HP HQ) as (a & b & Ha & Hb & Hab).
    exists a, b. repeat split; try done.
Qed.

Lemma series_min_elem x xs : series_min x xs ∈ x :: xs.
Proof.
  unfold series_min. revert x. induction xs as [|y xs IH]; intros x; simpl; [left|].
  specialize (IH (Qmin x y)). apply elem_of_cons in IH as [-> | IH].
  - unfold Qmin, GenericMinMax.gmin. destruct (x ?= y)%Q; [left | left | right; left].
  - right. by right.
Qed.

Lemma series_max_elem x xs : series_max x xs ∈ x :: xs.
Proof.
  unfold series_max. revert x. induction xs as [|y xs IH]; intros x; simpl; [left|].
  specialize (IH (Qmax x y)). apply elem_of_cons in IH as [-> | IH].
  - unfold Qmax, GenericMinMax.gmax. destruct (x ?= y)%Q; [left | right; left | left].
  - right. by right.
Qed.

Lemma existsb_Qeq_elem v (xs : list Q) :
  v ∈ xs -> existsb (fun x => Qeq_bool x v) xs = true.
Proof.
  intros H. apply existsb_exists. exists v. split; [by apply list_elem_of_In|].
  apply Qeq_bool_iff. reflexivity.
Qed.

Lemma first_pos_drop {A} (f : A -> bool) (l : list A) k :
  existsb f l = true -> (k <= first_pos f l)%nat ->
  existsb f (drop k l) = true /\ first_pos f (drop k l) = (first_pos f l - k)%nat.
Proof.
  revert k. induction l as [|a l IH]; intros k; simpl; [discriminate|].
  destruct (f a) eqn:E; simpl.
  - intros _ Hk. assert (k = 0%nat) as -> by lia. simpl. by rewrite E.
  - intros H Hk. destruct k as [|k]; simpl.
    + by rewrite E.
    + apply IH; [done | lia].
Qed.

Lemma walk_flagged first second values count :
  existsb (fun x => Qeq_bool x second) values = true ->
  walk first second values true count
  = Some (count + S (first_index second values))%nat.
Proof.
  unfold first_index.
  revert count. induction values as [|v values IH]; intros count; simpl; [discriminate|].
  replace (if Qeq_bool v first then true else true) with true by (by destruct (Qeq_bool v first)).
  destruct (Qeq_bool v second) eqn:E; simpl.
  - intros _. f_equal. lia.
  - intros H. rewrite (IH _ H). f_equal. lia.
Qed.

Lemma walk_counts first second values :
  existsb (fun x => Qeq_bool x first) values = true ->
  existsb (fun x => Qeq_bool x second) (drop (first_index first values) values) = true ->
  walk first second values false 0
  = Some (S (first_index second (drop (first_index first values) values))).
Proof.
  unfold first_index.
  induction values as [|v values IH]; [discriminate|].
  intros H1 H2. simpl in H1.
  destruct (Qeq_bool v first) eqn:E.
  - assert (Hw : walk first second (v :: values) false 0
                 = walk first second (v :: values) true 0).
    { simpl. by rewrite E. }
    rewrite Hw. simpl first_pos in *. rewrite E in *. simpl drop in *.
    by rewrite walk_flagged.
  - simpl in H1. simpl first_pos in *. rewrite E in *. simpl drop in H2 |- *.
    simpl walk. rewrite E. by apply IH.
Qed.

Lemma divide_nonzero a b : ~ (b == 0)%Q -> divide a b = Ok (a / b)%Q.
Proof.
  intros H. unfold divide. destruct (Qeq_bool b 0) eqn:E; [|reflexivity].
  apply Qeq_bool_iff in E. contradiction.
Qed.

(** The body of the loop over [ids], once the walk is known to end. *)
Lemma time_to_cross_id_walked dataframe fps var id :
  with_unique_id id dataframe <> [] ->
  time_to_cross_id dataframe fps var id
  = match fps with
    | None => Raise NameError
    | Some fps =>
        t ← divide (inject_Z (Z.of_nat
               (rows_walked (map X_center (with_unique_id id dataframe))))) fps;
        Ok (<[id := t]> var)
    end.
Proof.
  intros Hne. unfold time_to_cross_id, labelled.
  set (U := fun ir : nat * row => Unique_Id ir.2 =? id).
  set (G := List.filter U (zip (seq 0 (length dataframe)) dataframe)).
  assert (HG : map snd G = with_unique_id id dataframe).
  { apply (filter_labelled_rows (fun r => Unique_Id r =? id)). }
  assert (Hxs : map (fun ir : nat * row => X_center ir.2) G
                = map X_center (with_unique_id id dataframe)).
  { rewrite <- HG, map_map. reflexivity. }
  rewrite Hxs.
  destruct (map X_center (with_unique_id id dataframe)) as [|x xs'] eqn:Exs.
  { destruct (with_unique_id id dataframe); [contradiction | discriminate]. }
  set (x_min := series_min x xs'). set (x_max := series_max x xs').
  assert (Hmin : existsb (fun v => Qeq_bool v x_min) (x :: xs') = true)
    by apply existsb_Qeq_elem, series_min_elem.
  assert (Hmax : existsb (fun v => Qeq_bool v x_max) (x :: xs') = true)
    by apply existsb_Qeq_elem, series_max_elem.
  set (P := fun ir : nat * row => Qeq_bool (X_center ir.2) x_min).
  set (Q := fun ir : nat * row => Qeq_bool (X_center ir.2) x_max).
  assert (HP : existsb P G = true).
  { rewrite <- Hxs, existsb_map in Hmin. exact Hmin. }
  assert (HQ : existsb Q G = true).
  { rewrite <- Hxs, existsb_map in Hmax. exact Hmax. }
  destruct (label_order_is_row_order U P Q 0 dataframe HP HQ)
    as (a & b & Ha & Hb & Hab).
  fold G in Ha, Hb, Hab. rewrite Ha, Hb. unfold mbind, outcome_bind. cbv beta iota.
  assert (EP : first_pos P G = first_index x_min (x :: xs')).
  { unfold first_index. rewrite <- Hxs, first_pos_map. reflexivity. }
  assert (EQ : first_pos Q G = first_index x_max (x :: xs')).
  { unfold first_index. rewrite <- Hxs, first_pos_map. reflexivity. }
  rewrite Hab, EP, EQ. unfold rows_walked. fold x_min x_max.
  destruct (first_index x_min (x :: xs') <? first_index x_max (x :: xs'))%nat eqn:Hlt.
  - apply Nat.ltb_lt in Hlt.
    destruct (first_pos_drop (fun v => Qeq_bool v x_max) (x :: xs')
                (first_index x_min (x :: xs')) Hmax) as [Hd _].
    { unfold first_index in *. lia. }
    by rewrite (walk_counts _ _ _ Hmin Hd).
  - apply Nat.ltb_ge in Hlt.
    destruct (first_pos_drop (fun v => Qeq_bool v x_min) (x :: xs')
                (first_index x_max (x :: xs')) Hmin) as [Hd _].
    { unfold first_index in *. lia. }
    by rewrite (walk_counts _ _ _ Hmax Hd).
Qed.

Lemma time_to_cross_id_ok dataframe fps var id :
  with_unique_id id dataframe <> [] -> ~ (fps == 0)%Q ->
  time_to_cross_id dataframe (Some fps) var id
  = Ok (<[id := seconds_walked dataframe fps id]> var).
Proof.
  intros Hne Hfps. rewrite time_to_cross_id_walked by done.
  by rewrite divide_nonzero.
Qed.

Lemma time_to_cross_loop dataframe fps ids (var : gmap Z Q) :
  (forall id, id ∈ ids -> with_unique_id id dataframe <> []) -> ~ (fps == 0)%Q ->
  exists var', for_each (time_to_cross_id dataframe (Some fps)) ids var = Ok var' /\
    (forall id, id ∈ ids -> var' !! id = Some (seconds_walked dataframe fps id)) /\
    (forall id, id ∉ ids -> var' !! id = var !! id).
Proof.
  intros Hne Hfps. revert var.
  induction ids as [|i ids IH]; intros var; simpl.
  - exists var. split; [reflexivity|]. split; [|done].
    intros id H. by apply elem_of_nil in H.
  - rewrite time_to_cross_id_ok; [|apply Hne; left|done].
    destruct (IH (fun id H => Hne id (list_elem_of_further _ _ _ H))
                 (<[i := seconds_walked dataframe fps i]> var))
      as (var' & Hrun & Hin & Hout).
    exists var'. split; [exact Hrun|]. split.
    + intros id Hid. destruct (decide (id ∈ ids)) as [Hi|Hi]; [by apply Hin|].
      apply elem_of_cons in Hid as [-> | Hid]; [|contradiction].
      rewrite (Hout _ Hi). apply lookup_insert_eq.
    + intros id Hid. apply not_elem_of_cons in Hid as [Hne' Hid].
      rewrite (Hout _ Hid). by apply lookup_insert_ne.
Qed.

(** The closed form of the row count: one more than the distance between the
    first positions of the two extremes. *)
Lemma rows_walked_distance x xs :
  let i_min := first_index (series_min x xs) (x :: xs) in
  let i_max := first_index (series_max x xs) (x :: xs) in
  rows_walked (x :: xs)
  = if (i_min <? i_max)%nat then (i_max - i_min + 1)%nat else (i_min - i_max + 1)%nat.
Proof.
  intros i_min i_max. unfold rows_walked. fold i_min i_max.
  pose proof (existsb_Qeq_elem _ _ (series_min_elem x xs)) as Hmin.
  pose proof (existsb_Qeq_elem _ _ (series_max_elem x xs)) as Hmax.
  destruct (i_min <? i_max)%nat eqn:Hlt.
  - apply Nat.ltb_lt in Hlt.
    destruct (first_pos_drop _ _ i_min Hmax) as [_ Hd]; [unfold i_min, i_max, first_index in *; lia|].
    unfold first_index at 1. rewrite Hd. fold (first_index (series_max x xs) (x :: xs)).
    fold i_max. lia.
  - apply Nat.ltb_ge in Hlt.
    destruct (first_pos_drop _ _ i_max Hmin) as [_ Hd]; [unfold i_min, i_max, first_index in *; lia|].
    unfold first_index at 1. rewrite Hd. fold (first_index (series_min x xs) (x :: xs)).
    fold i_min. lia.
Qed.

(** C2: when the metadata lookup of the segment succeeds, [time_to_cross]
    returns a dictionary that maps every identity of the supplied list to
    the number of rows walked from the first-occurring extreme of the
    track's horizontal position up to and including the row where the
    opposite extreme is first reached, divided by the segment's frame rate.
    The tracks are non-empty and the frame rate is not zero. *)
Theorem time_to_cross_rows_walked df_mapping dataframe ids video_id s :
  find_values_with_video_id df_mapping video_id = Ok (Some s) ->
  ~ (seg_fps s == 0)%Q ->
  (forall id, id ∈ ids -> with_unique_id id dataframe <> []) ->
  exists var, time_to_cross df_mapping dataframe ids video_id = Ok var /\
    forall id, id ∈ ids ->
      var !! id
      = Some (inject_Z (Z.of_nat (rows_walked (map X_center (with_unique_id id dataframe))))
              / seg_fps s)%Q.
Proof.
  intros Hfind Hfps Hne. unfold time_to_cross. rewrite Hfind. simpl.
  destruct (time_to_cross_loop dataframe (seg_fps s) ids ∅ Hne Hfps)
    as (var & Hrun & Hin & _).
  exists var. split; [exact Hrun|]. exact Hin.
Qed.

Lemma time_to_cross_rows_walked_witness :
  exists var,
    time_to_cross Samples.mapping Samples.walker [1] Samples.key_0 = Ok var /\
    forall id, id ∈ [1] ->
      var !! id
      = Some (inject_Z (Z.of_nat (rows_walked (map X_center (with_unique_id id Samples.walker))))
              / 10)%Q.
Proof.
  apply (time_to_cross_rows_walked Samples.mapping Samples.walker [1] Samples.key_0
           (mkSegment "abc" 0 30 0 "Delft" "unknown" 1000 2000 170 "NLD" 10)).
  - reflexivity.
  - intros H. vm_compute in H. discriminate H.
  - intros id H. apply list_elem_of_singleton in H. subst id. vm_compute. discriminate.
Defined.

(** The walker's nine rows at 10 frames per second take 0.9 seconds. *)
Example time_to_cross_walker :
  (var ← time_to_cross Samples.mapping Samples.walker [1] Samples.key_0; Ok (var !! 1))
  = Ok (Some 0.9%Q).
Proof. vm_compute. reflexivity. Qed.

(** Twenty rows rising from 0.1 to 0.9 at 10 frames per second: all twenty
    rows are walked, 2 seconds. *)
Example time_to_cross_twenty_rows :
  rows_walked (map X_center (with_unique_id 1 Samples.twenty_rows)) = 20%nat /\
  match time_to_cross Samples.mapping Samples.twenty_rows [1] Samples.key_0 with
  | Ok var => var !! 1 = Some (20 # 10)
  | Raise _ => False
  end.
Proof. split; vm_compute; reflexivity. Qed.

(** ** Segments without metadata *)

Lemma find_start_absent start_ start counter :
  start_ ∉ start -> find_start start_ start counter = None.
Proof.
  revert counter. induction start as [|s start IH]; intros counter H; simpl; [reflexivity|].
  apply not_elem_of_cons in H as [Hne H].
  destruct (start_ =? s) eqn:E; [apply Z.eqb_eq in E; contradiction|].
  by apply IH.
Qed.

(** A key whose (video id, start time) pair matches no entry of the mapping
    table finds nothing: the function falls off its end. *)
Lemma find_in_videos_unmatched key r video_ids start_times end_times tods fps_s :
  (forall i video start, video_ids !! i = Some video -> start_times !! i = Some start ->
     video = key_id key -> key_start key ∉ start) ->
  find_in_videos key r video_ids start_times end_times tods fps_s = Ok None.
Proof.
  revert start_times end_times tods fps_s.
  induction video_ids as [|video video_ids IH]; intros [|st sts] [|en ens] [|td tds] [|f fs] H;
    simpl; try reflexivity.
  assert (Hrest : find_in_videos key r video_ids sts ens tds fs = Ok None).
  { apply IH. intros i v s Hv Hs. apply (H (S i)); assumption. }
  destruct (String.eqb video (key_id key)) eqn:E; [|exact Hrest].
  apply String.eqb_eq in E.
  rewrite find_start_absent; [exact Hrest|].
  by apply (H 0%nat video st).
Qed.

Lemma find_values_unmatched df key :
  (forall r i video start, r ∈ df ->
     videos r !! i = Some video -> start_time r !! i = Some start ->
     video = key_id key -> key_start key ∉ start) ->
  find_values_with_video_id df key = Ok None.
Proof.
  induction df as [|r df IH]; intros H; simpl; [reflexivity|].
  rewrite find_in_videos_unmatched.
  - simpl. apply IH. intros r' i v s Hr. apply H. by right.
  - intros i v s. apply (H r). left.
Qed.

(** The four aggregations that guard their whole body with
    [if result is not None] leave their accumulators as they were. *)
Lemma speed_of_segment_skips df_mapping dfs speed_dict key df :
  find_values_with_video_id df_mapping key = Ok None ->
  speed_of_segment df_mapping dfs speed_dict (key, df) = Ok speed_dict.
Proof. intros H. unfold speed_of_segment. rewrite H. by destruct df. Qed.

Lemma start_of_segment_skips df_mapping person_id time_dict key df :
  find_values_with_video_id df_mapping key = Ok None ->
  start_of_segment df_mapping person_id time_dict (key, df) = Ok time_dict.
Proof. intros H. unfold start_of_segment. by rewrite H. Qed.

Lemma traffic_signs_segment_skips count df_mapping acc key df :
  find_values_with_video_id df_mapping key = Ok None ->
  traffic_signs_segment count df_mapping acc (key, df) = Ok acc.
Proof. intros H. unfold traffic_signs_segment. destruct acc. by rewrite H. Qed.

Lemma equipment_segment_skips df_mapping dfs st key df :
  find_values_with_video_id df_mapping key = Ok None ->
  equipment_segment df_mapping dfs st (key, df) = Ok st.
Proof. intros H. unfold equipment_segment. by rewrite H. Qed.

(** C8, where the code departs from it: [time_to_cross] tests
    [result is not None] only around the unpacking, so for a key without
    metadata the name [fps] is unbound, and the first identity of the list
    that has a track makes the function raise instead of skipping. *)
Theorem time_to_cross_unmatched_key_raises df_mapping dataframe id ids video_id :
  find_values_with_video_id df_mapping video_id = Ok None ->
  with_unique_id id dataframe <> [] ->
  time_to_cross df_mapping dataframe (id :: ids) video_id = Raise NameError.
Proof.
  intros Hfind Hne. unfold time_to_cross. rewrite Hfind. simpl.
  by rewrite time_to_cross_id_walked.
Qed.

Lemma time_to_cross_unmatched_key_raises_witness :
  time_to_cross Samples.mapping Samples.walker [1] Samples.key_absent = Raise NameError.
Proof.
  apply (time_to_cross_unmatched_key_raises Samples.mapping Samples.walker 1 []
           Samples.key_absent).
  - reflexivity.
  - vm_compute. discriminate.
Defined.

(** ** Loops *)

(** A property of the accumulator that every iteration preserves holds when
    the loop ends; [I] may mention the items already visited. *)
Lemma for_each_invariant {A S} (body : S -> A -> outcome S)
    (I : list A -> S -> Prop) xs s0 s :
  I [] s0 ->
  (forall visited x s s', I visited s -> body s x = Ok s' -> I (visited ++ [x]) s') ->
  for_each body xs s0 = Ok s -> I xs s.
Proof.
  intros H0 Hstep.
  assert (G : forall visited s0, I visited s0 -> for_each body xs s0 = Ok s ->
                                 I (visited ++ xs) s).
  { induction xs as [|x xs IH]; intros visited s1 HI Hrun; simpl in Hrun.
    - injection Hrun as <-. by rewrite app_nil_r.
    - destruct (body s1 x) as [s2|e] eqn:E; simpl in Hrun; [|discriminate].
      rewrite (cons_middle x visited xs), app_assoc.
      apply (IH _ s2); [|exact Hrun]. by apply (Hstep visited x s1). }
  apply (G [] s0 H0).
Qed.

Lemma for_each_preserves {A S} (body : S -> A -> outcome S) (I : S -> Prop) xs s0 s :
  (forall x s s', I s -> body s x = Ok s' -> I s') ->
  I s0 -> for_each body xs s0 = Ok s -> I s.
Proof.
  intros Hstep H0. apply (for_each_invariant body (fun _ => I)); [exact H0|].
  intros _ x s1 s2. apply Hstep.
Qed.

(** A loop whose every iteration succeeds succeeds. *)
Lemma for_each_total {A S} (body : S -> A -> outcome S) xs s0 :
  (forall x s, x ∈ xs -> exists s', body s x = Ok s') ->
  exists s, for_each body xs s0 = Ok s.
Proof.
  revert s0. induction xs as [|x xs IH]; intros s0 H; simpl; [by exists s0|].
  destruct (H x s0) as [s1 E]; [left|]. rewrite E. simpl.
  apply IH. intros y s Hy. apply H. by right.
Qed.

Ltac outcome_inv H :=
  repeat match type of H with
  | context [mbind _ ?m] =>
      let E := fresh "E" in
      destruct m eqn:E; unfold mbind at 1, outcome_bind at 1 in H; cbv beta iota in H;
      [|discriminate H]
  end.

(** ** Speed of crossing *)

Lemma lookup_dict_append k v d k' :
  dict_append k v d !! k'
  = if decide (k = k') then Some (default [] (d !! k) ++ [v]) else d !! k'.
Proof.
  unfold dict_append. destruct (d !! k) as [values|] eqn:E; simpl;
    rewrite lookup_insert; by destruct (decide (k = k')).
Qed.

(** What one crossing event can do to [speed_dict]: nothing, or append a
    speed that is not above the limit. *)
Lemma speed_of_event_step value s speed_dict event speed_dict' :
  speed_of_event value s speed_dict event = Ok speed_dict' ->
  speed_dict' = speed_dict \/
  exists speed_, (speed_ <= speed_limit)%Q /\
                 speed_dict' = dict_append (aggregate_key s) speed_ speed_dict.
Proof.
  unfold speed_of_event. intros H. outcome_inv H.
  destruct (Qlt_le_dec speed_limit a) as [Hgt|Hle]; injection H as <-.
  - by left.
  - right. by exists a.
Qed.



Lemma dict_append_nonempty k v d :
  all_nonempty d -> all_nonempty (dict_append k v d).
Proof.
  intros Hd k' values. rewrite lookup_dict_append.
  destruct (decide (k = k')) as [<-|]; [|apply Hd].
  intros [= <-]. by destruct (default [] (d !! k)).
Qed.

Lemma speed_of_segment_preserves (I : gmap string (list Q) -> Prop) df_mapping dfs :
  (forall k v d, (v <= speed_limit)%Q -> I d -> I (dict_append k v d)) ->
  forall item d d', I d -> speed_of_segment df_mapping dfs d item = Ok d' -> I d'.
Proof.
  intros Happ [key df] d d' Hd. unfold speed_of_segment.
  destruct df as [|ev df]; [by intros [= <-]|].
  intros H. outcome_inv H. destruct a as [s|]; [|by injection H as <-].
  revert H. apply for_each_preserves; [|exact Hd].
  intros event d1 d2 Hd1 Hstep.
  apply speed_of_event_step in Hstep as [-> | (v & Hv & ->)]; [exact Hd1|].
  by apply Happ.
Qed.


Lemma calculate_speed_nonempty df_mapping dfs data d :
  calculate_speed_of_crossing df_mapping dfs data = Ok d -> all_nonempty d.
Proof.
  apply (for_each_preserves _ all_nonempty).
  - apply speed_of_segment_preserves. intros k v d0 _. apply dict_append_nonempty.
  - intros k values H. by rewrite lookup_empty in H.
Qed.



(** A crossing whose speed is exactly 1.2 is kept; a faster one is not. *)
Example speed_at_limit_kept :
  (d ← calculate_speed_of_crossing Samples.mapping Samples.dfs Samples.data_at_limit;
   Ok (map_to_list d))
  = Ok [("Delft_unknown_0"%string, [3672000 # 3060000])]
  /\ (3672000 # 3060000 == 1.2)%Q.
Proof. split; vm_compute; reflexivity. Qed.

Example speed_above_limit_dropped :
  (d ← calculate_speed_of_crossing Samples.mapping Samples.dfs Samples.data_above_limit;
   Ok (map_to_list d))
  = Ok [].
Proof. vm_compute. reflexivity. Qed.

(** ** Start-of-crossing latency: the lists are never empty *)

Lemma to_seconds_length fps data_cross times :
  to_seconds fps data_cross = Ok times -> length times = length data_cross.
Proof.
  revert times. induction data_cross as [|[id value] rest IH]; intros times; simpl.
  - by intros [= <-].
  - intros H. outcome_inv H. injection H as <-. simpl. f_equal. by apply IH.
Qed.

Lemma start_of_segment_nonempty df_mapping person_id entry d d' :
  all_nonempty d -> start_of_segment df_mapping person_id d entry = Ok d' ->
  all_nonempty d'.
Proof.
  intros Hd. destruct entry as [key df]. unfold start_of_segment.
  intros H. outcome_inv H. destruct a as [s|]; [|by injection H as <-].
  outcome_inv H. destruct a as [|c data_cross]; [by injection H as <-|].
  outcome_inv H. apply to_seconds_length in E1.
  assert (Hne : a <> []) by (destruct a; [discriminate | done]).
  destruct (d !! aggregate_key s) as [values|] eqn:Ek; injection H as <-;
    intros k vs; rewrite lookup_insert; destruct (decide (aggregate_key s = k));
    try apply Hd; intros [= <-]; [|exact Hne].
  intros Happ. apply app_eq_nil in Happ as [_ Happ]. contradiction.
Qed.

Lemma time_to_start_cross_nonempty df_mapping dfs person_id d :
  time_to_start_cross df_mapping dfs person_id = Ok d -> all_nonempty d.
Proof.
  apply (for_each_preserves _ all_nonempty).
  - intros entry d0 d1. apply start_of_segment_nonempty.
  - intros k values H. by rewrite lookup_empty in H.
Qed.

(** ** Averages *)

Lemma average_nonempty values :
  values <> [] -> exists a, average values = Ok a.
Proof.
  intros Hne. unfold average. rewrite divide_nonzero; [eauto|].
  destruct values as [|v values]; [contradiction|].
  unfold Qeq. simpl. lia.
Qed.

Lemma averages_total d : all_nonempty d -> exists avg, averages d = Ok avg.
Proof.
  intros Hd. unfold averages. apply for_each_total.
  intros [k values] acc Hin. apply elem_of_map_to_list in Hin.
  destruct (average_nonempty values (Hd k values Hin)) as [a Ha].
  simpl. rewrite Ha. simpl. eauto.
Qed.

(** C10: every key of the dictionaries that [calculate_speed_of_crossing]
    and [time_to_start_cross] return maps to a non-empty list, so the means
    that [avg_speed_of_crossing] and [avg_time_to_start_cross] take over
    them divide by a non-zero length and succeed. *)
Theorem aggregate_lists_never_empty df_mapping dfs data :
  (forall d, calculate_speed_of_crossing df_mapping dfs data = Ok d ->
     (forall k values, d !! k = Some values -> values <> []) /\
     exists avg, avg_speed_of_crossing df_mapping dfs data = Ok avg) /\
  (forall d, time_to_start_cross df_mapping dfs 0 = Ok d ->
     (forall k values, d !! k = Some values -> values <> []) /\
     exists avg, avg_time_to_start_cross df_mapping dfs = Ok avg).
Proof.
  split; intros d Hrun.
  - pose proof (calculate_speed_nonempty _ _ _ _ Hrun) as Hne.
    split; [exact Hne|].
    unfold avg_speed_of_crossing. rewrite Hrun. simpl. by apply averages_total.
  - pose proof (time_to_start_cross_nonempty _ _ _ _ Hrun) as Hne.
    split; [exact Hne|].
    unfold avg_time_to_start_cross. rewrite Hrun. simpl. by apply averages_total.
Qed.

Lemma aggregate_lists_never_empty_witness :
  (forall d,
     calculate_speed_of_crossing Samples.mapping Samples.dfs_all Samples.data_at_limit = Ok d ->
     (forall k values, d !! k = Some values -> values <> []) /\
     exists avg,
       avg_speed_of_crossing Samples.mapping Samples.dfs_all Samples.data_at_limit = Ok avg) /\
  (forall d,
     time_to_start_cross Samples.mapping Samples.dfs_all 0 = Ok d ->
     (forall k values, d !! k = Some values -> values <> []) /\
     exists avg, avg_time_to_start_cross Samples.mapping Samples.dfs_all = Ok avg).
Proof.
  exact (aggregate_lists_never_empty Samples.mapping Samples.dfs_all Samples.data_at_limit).
Defined.

(** On the sample both dictionaries have one key with one value, and the
    averages are that value. *)
Example averages_of_sample :
  match calculate_speed_of_crossing Samples.mapping Samples.dfs_all Samples.data_at_limit,
        avg_speed_of_crossing Samples.mapping Samples.dfs_all Samples.data_at_limit,
        time_to_start_cross Samples.mapping Samples.dfs_all 0,
        avg_time_to_start_cross Samples.mapping Samples.dfs_all with
  | Ok speeds, Ok avg_speed, Ok times, Ok avg_time =>
      map_to_list speeds = [("Delft_unknown_0"%string, [3672000 # 3060000])] /\
      map_to_list avg_speed = [("Delft_unknown_0"%string, 3672000 # 3060000)] /\
      map_to_list times = [("Delft_unknown_0"%string, [3.0%Q])] /\
      map_to_list avg_time = [("Delft_unknown_0"%string, 3.0%Q)]
  | _, _, _, _ => False
  end.
Proof. vm_compute. repeat split; reflexivity. Qed.

(** ** Start-of-crossing latency: the two directions *)

Lemma range_by_10_in_range len i :
  i ∈ range_by_10 len -> (i + 10 < len)%nat.
Proof.
  unfold range_by_10. rewrite list_elem_of_fmap. intros (k & -> & Hk).
  apply list_elem_of_In, in_seq in Hk.
  pose proof (Nat.div_mod_eq (len - 10 + 9) 10) as Hdiv.
  pose proof (Nat.mod_upper_bound (len - 10 + 9) 10) as Hmod.
  lia.
Qed.

Lemma item_in_range (x_values : list Q) i :
  (i < length x_values)%nat -> exists v, item x_values i = Ok v.
Proof.
  intros H. unfold item. destruct (x_values !! i) as [v|] eqn:E; [eauto|].
  apply lookup_ge_None in E. lia.
Qed.

(** With a positive margin no step is steady in the right-to-left test:
    it asks for [x + margin <= x' <= x - margin]. *)
Lemma steady_right_to_left_never margin xi xj :
  (0 < margin)%Q -> steady_right_to_left margin xi xj = false.
Proof.
  intros Hm. unfold steady_right_to_left.
  destruct (Qle_bool xj (xi - margin)) eqn:E1; [|reflexivity].
  destruct (Qle_bool (xi + margin) xj) eqn:E2; [|reflexivity].
  apply Qle_bool_iff in E1, E2. exfalso.
  assert (H : (xi + margin <= xi - margin)%Q) by (eapply Qle_trans; eassumption).
  revert Hm H. unfold Qlt, Qle, Qplus, Qminus, Qopp, Qplus. simpl. nia.
Qed.

Lemma scan_strides_never_steady steady x_values strides consecutive_frame :
  (forall xi xj, steady xi xj = false) ->
  (forall i, i ∈ strides -> (i + 10 < length x_values)%nat) ->
  scan_strides steady x_values strides false consecutive_frame = Ok None.
Proof.
  intros Hnever. revert consecutive_frame.
  induction strides as [|i strides IH]; intros cf Hin; simpl; [reflexivity|].
  destruct (item_in_range x_values i) as [xi ->]; [pose proof (Hin i ltac:(left)); lia|].
  destruct (item_in_range x_values (i + 10)) as [xj ->]; [apply Hin; left|].
  simpl. rewrite Hnever. apply IH. intros j Hj. apply Hin. by right.
Qed.

(** C7, where the code departs from it: in the right-to-left branch the
    band test is written with the comparisons turned round, so a track that
    starts at or right of 0.5 and has a positive mean height has no steady
    step at all and is never recorded, whatever its positions are. *)
Theorem right_to_left_never_recorded group_data initial_x :
  map X_center group_data !! 0%nat = Some initial_x ->
  (0.5 <= initial_x)%Q ->
  (0 < series_mean (map Height group_data))%Q ->
  start_of_track group_data = Ok None.
Proof.
  intros H0 Hright Hheight. unfold start_of_track, item at 1. rewrite H0. simpl.
  destruct (Qlt_le_dec initial_x 0.5) as [Hlt|_].
  { exfalso. by apply (Qlt_not_le _ _ Hlt). }
  apply scan_strides_never_steady.
  - intros xi xj. apply steady_right_to_left_never.
    revert Hheight. generalize (series_mean (map Height group_data)).
    intros [n d]. unfold Qlt, Qmult. simpl. lia.
  - apply range_by_10_in_range.
Qed.

Lemma right_to_left_never_recorded_witness :
  start_of_track Samples.right_starter = Ok None.
Proof.
  apply (right_to_left_never_recorded Samples.right_starter (6 # 10)).
  - reflexivity.
  - vm_compute. discriminate.
  - vm_compute. reflexivity.
Defined.

(** The mirrored track, which starts left of 0.5, is recorded with three
    steady strides, that is 3 seconds at 10 frames per second. *)
Example left_to_right_recorded :
  start_of_track Samples.left_starter = Ok (Some 3%nat) /\
  (d ← time_to_start_cross Samples.mapping
         [(Samples.key_0, Samples.left_starter ++ Samples.right_starter)] 0;
   Ok (map_to_list d))
  = Ok [("Delft_unknown_0"%string, [3.0%Q])].
Proof. split; vm_compute; reflexivity. Qed.

(** Under the band test of the left-to-right branch the right-to-left sample
    has three steady strides and then a break, as its mirror image has. *)
Example right_starter_within_band :
  let x_values := map X_center Samples.right_starter in
  scan_strides (steady_left_to_right (0.1 * series_mean (map Height Samples.right_starter)))
    x_values (range_by_10 (length x_values)) false 0
  = Ok (Some 3%nat).
Proof. vm_compute. reflexivity. Qed.

(** Every recorded latency comes from at least three steady strides. *)
Lemma scan_strides_at_least_three steady x_values strides flag consecutive_frame n :
  (flag = true -> (3 <= consecutive_frame)%nat) ->
  scan_strides steady x_values strides flag consecutive_frame = Ok (Some n) ->
  (3 <= n)%nat.
Proof.
  revert flag consecutive_frame.
  induction strides as [|i strides IH]; intros flag cf Hflag; simpl; [discriminate|].
  intros H. outcome_inv H.
  destruct (steady a a0).
  - revert H. apply IH. change (S cf =? 3)%nat with (cf =? 2)%nat.
    destruct (Nat.eqb_spec cf 2) as [E3|E3].
    + lia.
    + intros Hf. specialize (Hflag Hf). lia.
  - destruct flag.
    + injection H as <-. by apply Hflag.
    + revert H. apply IH. discriminate.
Qed.

(** ** Traffic-infrastructure correlator *)

(** Each crossing event adds one to exactly one of the two counters. *)
Lemma classify_event_one_bucket value a b event a' b' :
  classify_event value (a, b) event = Ok (a', b') ->
  (a' = a + 1 /\ b' = b) \/ (a' = a /\ b' = b + 1).
Proof.
  unfold classify_event. destruct event as [id time].
  destruct value as [value|]; [|discriminate].
  intros H. outcome_inv H.
  destruct (any_isin_9_11 (loc_YOLO_id value a0 a1)); simpl in H;
    injection H as <- <-; [left | right]; done.
Qed.

Lemma classify_events_count value df a b a' b' :
  for_each (classify_event value) df (a, b) = Ok (a', b') ->
  a' + b' = a + b + Z.of_nat (length df).
Proof.
  apply (for_each_invariant _
           (fun visited c => c.1 + c.2 = a + b + Z.of_nat (length visited))).
  - simpl. lia.
  - intros visited event [c d] [c' d'] HI Hstep. simpl in *.
    apply classify_event_one_bucket in Hstep. rewrite length_app. simpl. lia.
Qed.

Lemma crossing_events_snoc df_mapping k visited entry :
  crossing_events df_mapping k (visited ++ [entry])
  = (crossing_events df_mapping k visited
     + if decide (key_of_segment df_mapping entry.1 = Some k)
       then length entry.2 else 0)%nat.
Proof. unfold crossing_events. rewrite sum_list_with_app. simpl. lia. Qed.

Lemma equipment_segment_counters df_mapping dfs visited entry st st' :
  counters_add_up df_mapping visited st ->
  equipment_segment df_mapping dfs st entry = Ok st' ->
  counters_add_up df_mapping (visited ++ [entry]) st'.
Proof.
  intros HI Hstep k. rewrite crossing_events_snoc.
  destruct entry as [key df]. unfold equipment_segment in Hstep.
  unfold key_of_segment. simpl.
  destruct (find_values_with_video_id df_mapping key) as [[s|]|e] eqn:Efind;
    simpl in Hstep; try discriminate.
  - outcome_inv Hstep. destruct a as [ce cn]. injection Hstep as <-. simpl.
    apply classify_events_count in E.
    rewrite !lookup_insert.
    destruct (decide (aggregate_key s = k)) as [->|Hne].
    + rewrite decide_True by reflexivity. simpl. specialize (HI k). lia.
    + rewrite decide_False by congruence. specialize (HI k). lia.
  - injection Hstep as <-. rewrite decide_False by discriminate.
    specialize (HI k). lia.
Qed.

(** C5: for every aggregate key, the with-infrastructure count plus the
    without-infrastructure count that [crossing_event_wt_traffic_equipment]
    returns is the number of crossing events of the segments under that key;
    every event goes to exactly one of the two buckets. *)
Theorem counts_sum_to_events df_mapping dfs data st :
  crossing_event_wt_traffic_equipment df_mapping dfs data = Ok st ->
  (forall k, default 0 (counter_1 st !! k) + default 0 (counter_2 st !! k)
             = Z.of_nat (crossing_events df_mapping k data)) /\
  (forall value a b event a' b',
     classify_event value (a, b) event = Ok (a', b') ->
     (a' = a + 1 /\ b' = b) \/ (a' = a /\ b' = b + 1)).
Proof.
  intros Hrun. split.
  - revert Hrun. apply (for_each_invariant _ (counters_add_up df_mapping)).
    + intros k. simpl. rewrite !lookup_empty. reflexivity.
    + intros visited entry s s'. apply equipment_segment_counters.
  - apply classify_event_one_bucket.
Qed.

Lemma counts_sum_to_events_witness :
  (forall k,
     default 0 (counter_1 Samples.state_mixed !! k)
     + default 0 (counter_2 Samples.state_mixed !! k)
     = Z.of_nat (crossing_events Samples.mapping_day k Samples.data_lights)) /\
  (forall value a b event a' b',
     classify_event value (a, b) event = Ok (a', b') ->
     (a' = a + 1 /\ b' = b) \/ (a' = a /\ b' = b + 1)).
Proof.
  apply (counts_sum_to_events Samples.mapping_day Samples.dfs_mixed Samples.data_lights
           Samples.state_mixed).
  vm_compute. reflexivity.
Defined.

(** Five of the six events of the sample have a traffic light in range. *)
Example counts_of_sample :
  default 0 (counter_1 Samples.state_mixed !! "Delft_unknown_0"%string) = 5 /\
  default 0 (counter_2 Samples.state_mixed !! "Delft_unknown_0"%string) = 1 /\
  crossing_events Samples.mapping_day "Delft_unknown_0" Samples.data_lights = 6%nat.
Proof. repeat split; vm_compute; reflexivity. Qed.

(** ** Rate normalisation *)






Lemma subscript_ok {V} (d : gmap string V) key v :
  subscript d key = Ok v -> d !! key = Some v.
Proof. unfold subscript. destruct (d !! key); [by intros [= ->] | discriminate]. Qed.

Lemma divide_ok a b q : divide a b = Ok q -> ~ (b == 0)%Q /\ q = (a / b)%Q.
Proof.
  unfold divide. destruct (Qeq_bool b 0) eqn:E; [discriminate|].
  intros [= <-]. split; [|reflexivity].
  intros H. apply Qeq_bool_iff in H. congruence.
Qed.


Lemma nomalised_rates df_mapping dfs data var_exist var_nt_exist :
  nomalised_crossing_wth_traffic_equipment df_mapping dfs data
  = Ok (var_exist, var_nt_exist) ->
  exists st,
    crossing_event_wt_traffic_equipment df_mapping dfs data = Ok st /\
    (forall k v, var_exist !! k = Some v ->
       per_minute_per_head (counter_1 st) (time_ st) (population_ st) k = Ok v) /\
    (forall k v, var_nt_exist !! k = Some v ->
       per_minute_per_head (counter_2 st) (time_ st) (population_ st) k = Ok v) /\
    (forall k, is_Some (time_ st !! k) ->
       is_Some (var_exist !! k) /\ is_Some (var_nt_exist !! k)).
Proof.
  unfold nomalised_crossing_wth_traffic_equipment. intros H. outcome_inv H.
  rename a into st. exists st. split; [reflexivity|].
  apply (for_each_invariant _
           (fun visited acc =>
              (forall k v, acc.1 !! k = Some v ->
                 per_minute_per_head (counter_1 st) (time_ st) (population_ st) k = Ok v) /\
              (forall k v, acc.2 !! k = Some v ->
                 per_minute_per_head (counter_2 st) (time_ st) (population_ st) k = Ok v) /\
              (forall kv : string * Z, kv ∈ visited ->
                 is_Some (acc.1 !! kv.1) /\ is_Some (acc.2 !! kv.1)))) in H.
  - destruct H as (H1 & H2 & H3). split; [exact H1|]. split; [exact H2|].
    intros k [t Ht]. apply (H3 (k, t)). by apply elem_of_map_to_list.
  - simpl. split; [|split].
    + intros k v Hk. by rewrite lookup_empty in Hk.
    + intros k v Hk. by rewrite lookup_empty in Hk.
    + intros kv Hkv. by apply elem_of_nil in Hkv.
  - intros visited [k t] [ve vn] acc' (H1 & H2 & H3) Hstep. simpl in *.
    outcome_inv Hstep. injection Hstep as <-. simpl. split; [|split].
    + intros k' v. rewrite lookup_insert. destruct (decide (k = k')) as [<-|]; [|apply H1].
      by intros [= <-].
    + intros k' v. rewrite lookup_insert. destruct (decide (k = k')) as [<-|]; [|apply H2].
      by intros [= <-].
    + intros kv Hkv. apply elem_of_app in Hkv as [Hv|Hv].
      * rewrite !lookup_insert. destruct (decide (k = kv.1)); [eauto|]. by apply H3.
      * apply list_elem_of_singleton in Hv. subst kv. simpl. rewrite !lookup_insert_eq. eauto.
Qed.


(** C3, where the code departs from it: the population that
    [crossing_event_wt_traffic_equipment] keeps "for normalisation" is the
    tuple position that holds row["population_city"], not the country
    population.  Two day segments of 30 s with 2 and 4 crossings by a
    traffic light, in a city of 500 in a country of 1000: the rate is
    (6 x 60) / 60 / 500 = 0.012, not (6 x 60) / 60 / 1000 = 0.006. *)
Theorem normalised_rate_divides_by_city_population :
  match nomalised_crossing_wth_traffic_equipment
          Samples.mapping_day Samples.dfs_lights Samples.data_lights with
  | Ok (var_exist, var_nt_exist) =>
      var_exist !! "Delft_unknown_0"%string = Some (360 # 30000) /\
      var_nt_exist !! "Delft_unknown_0"%string = Some (0 # 30000)
  | Raise _ => False
  end /\
  (360 # 30000 == 6 * 60 / 60 / 500)%Q /\
  ~ (360 # 30000 == 6 * 60 / 60 / 1000)%Q /\
  (6 * 60 / 60 / 1000 == 0.006)%Q /\
  match crossing_event_wt_traffic_equipment
          Samples.mapping_day Samples.dfs_lights Samples.data_lights with
  | Ok st =>
      counter_1 st !! "Delft_unknown_0"%string = Some 6 /\
      time_ st !! "Delft_unknown_0"%string = Some 60 /\
      population_ st !! "Delft_unknown_0"%string = Some 500%Q
  | Raise _ => False
  end /\
  match find_values_with_video_id Samples.mapping_day Samples.key_0 with
  | Ok (Some s) => seg_population s = 500%Q /\ seg_population_country s = 1000%Q
  | _ => False
  end.
Proof.
  split; [vm_compute; split; reflexivity|].
  split; [vm_compute; reflexivity|].
  split; [intros H; vm_compute in H; discriminate H|].
  split; [vm_compute; reflexivity|].
  split; [vm_compute; repeat split; reflexivity|].
  vm_compute. split; reflexivity.
Qed.

(** With a city population of 1000 the figures of the specification's
    example give its rate of 0.006. *)
Example normalised_rate_of_example :
  let mapping := [ mkMapping ["abc"] [[0; 30]] [[30; 60]] [[0; 0]] "Delft" None
                             1000 1000 170 "NLD" [10%Q] ] in
  match nomalised_crossing_wth_traffic_equipment
          mapping Samples.dfs_lights Samples.data_lights with
  | Ok (var_exist, _) => var_exist !! "Delft_unknown_0"%string = Some (360 # 60000)
  | Raise _ => False
  end /\ (360 # 60000 == 0.006)%Q.
Proof. split; vm_compute; reflexivity. Qed.

(** ** Traffic-sign density *)

(** C6, where the code departs from it: the weights that [traffic_signs]
    accumulates are values of a name [count] that the function never binds,
    and no duration enters them.  Two day segments of 30 s with one and with
    three traffic instruments have rates 2 and 6 per minute, whose
    duration-weighted running mean is 4; the code returns 6 divided by the
    module-level [count] (3 for [count = 2], 6 for [count = 1]), divides by
    zero for [count = 0], and raises [NameError] when [count] is unbound. *)
Theorem traffic_signs_not_duration_weighted :
  (weighted_running_mean Samples.sign_rates == 4)%Q /\
  (info ← traffic_signs (Some 2) Samples.mapping_day Samples.dfs_signs;
   Ok (info !! "Delft_unknown_0"%string)) = Ok (Some (5400 # 1800)) /\
  (5400 # 1800 == 3)%Q /\
  (info ← traffic_signs (Some 1) Samples.mapping_day Samples.dfs_signs;
   Ok (info !! "Delft_unknown_0"%string)) = Ok (Some (5400 # 900)) /\
  (5400 # 900 == 6)%Q /\
  traffic_signs (Some 0) Samples.mapping_day Samples.dfs_signs = Raise ZeroDivisionError /\
  traffic_signs None Samples.mapping_day Samples.dfs_signs = Raise NameError.
Proof. repeat split; vm_compute; reflexivity. Qed.

(** A key seen once keeps the rate of its only segment. *)
Example traffic_signs_single_segments :
  (info ← traffic_signs None Samples.mapping Samples.dfs_signs; Ok (map_to_list info))
  = Ok [("Delft_unknown_1"%string, 180 # 30); ("Delft_unknown_0"%string, 60 # 30)].
Proof. vm_compute. reflexivity. Qed.

(** * Further properties *)

(** ** Counting objects and crossings *)

Lemma crossing_ids_counted df min_x max_x person_id id :
  id ∈ (pedestrian_crossing df min_x max_x person_id).2 ->
  id ∈ unique (map Unique_Id (with_class person_id df)).
Proof.
  intros H. apply elem_of_pedestrian_crossing in H as [(r & Hr & Hu & Hc & _) _].
  apply elem_of_unique, list_elem_of_fmap. exists r. split; [done|].
  by apply elem_of_with_class.
Qed.

Lemma NoDup_subset_length (l k : list Z) :
  NoDup l -> (forall x, x ∈ l -> x ∈ k) -> (length l <= length k)%nat.
Proof. intros Hl Hsub. apply submseteq_length, NoDup_submseteq; assumption. Qed.

(** X1: the number of crossings that [pedestrian_crossing] reports for a
    class never exceeds the number of objects of that class that
    [count_object] counts in the same table. *)
Theorem crossings_at_most_objects df min_x max_x person_id :
  ((pedestrian_crossing df min_x max_x person_id).1 <= count_object df person_id)%nat.
Proof.
  unfold count_object. change ((pedestrian_crossing df min_x max_x person_id).1)
    with (length (pedestrian_crossing df min_x max_x person_id).2).
  apply NoDup_subset_length.
  - apply NoDup_unique.
  - intros id. apply crossing_ids_counted.
Qed.

(** X2: moving the left threshold to the right, or the right threshold to
    the left, never loses a crossing: every identity reported for
    [(min_x, max_x)] is reported for [(min_x', max_x')] when
    [min_x <= min_x'] and [max_x' <= max_x], and the count does not drop. *)
Theorem crossings_grow_with_band df min_x max_x min_x' max_x' person_id :
  (min_x <= min_x')%Q -> (max_x' <= max_x)%Q ->
  (forall id, id ∈ (pedestrian_crossing df min_x max_x person_id).2 ->
              id ∈ (pedestrian_crossing df min_x' max_x' person_id).2) /\
  ((pedestrian_crossing df min_x max_x person_id).1
   <= (pedestrian_crossing df min_x' max_x' person_id).1)%nat.
Proof.
  intros Hmin Hmax.
  assert (Hsub : forall id, id ∈ (pedestrian_crossing df min_x max_x person_id).2 ->
                            id ∈ (pedestrian_crossing df min_x' max_x' person_id).2).
  { intros id. rewrite !elem_of_pedestrian_crossing.
    intros [(r1 & H1 & U1 & C1 & L1) (r2 & H2 & U2 & C2 & L2)]. split.
    - exists r1. repeat split; try assumption. by apply (Qle_trans _ min_x).
    - exists r2. repeat split; try assumption. by apply (Qle_trans _ max_x). }
  split; [exact Hsub|].
  change ((pedestrian_crossing df min_x max_x person_id).1)
    with (length (pedestrian_crossing df min_x max_x person_id).2).
  change ((pedestrian_crossing df min_x' max_x' person_id).1)
    with (length (pedestrian_crossing df min_x' max_x' person_id).2).
  apply NoDup_subset_length; [apply NoDup_unique | exact Hsub].
Qed.

Lemma crossings_grow_with_band_witness :
  (forall id, id ∈ (pedestrian_crossing Samples.walker 0.2 0.8 0).2 ->
              id ∈ (pedestrian_crossing Samples.walker 0.45 0.55 0).2) /\
  ((pedestrian_crossing Samples.walker 0.2 0.8 0).1
   <= (pedestrian_crossing Samples.walker 0.45 0.55 0).1)%nat.
Proof.
  apply (crossings_grow_with_band Samples.walker 0.2 0.8 0.45 0.55 0).
  - vm_compute. discriminate.
  - vm_compute. discriminate.
Defined.

(** ** Time to cross on the identities of the crossing detector *)

Lemma time_to_cross_id_absent dataframe fps var id :
  with_unique_id id dataframe = [] ->
  time_to_cross_id dataframe fps var id = Raise IndexError.
Proof.
  intros Hnone. unfold time_to_cross_id, labelled.
  pose proof (filter_labelled_rows (fun r => Unique_Id r =? id) 0 dataframe) as HG.
  fold (with_unique_id id dataframe) in HG. rewrite Hnone in HG.
  destruct (List.filter _ (zip (seq 0 (length dataframe)) dataframe)) as [|g G];
    [reflexivity | discriminate].
Qed.

(** X3: with metadata found and a non-zero frame rate, an identity of the
    list that has no row in the table makes [time_to_cross] raise
    [IndexError], wherever it stands in the list. *)
Theorem time_to_cross_absent_track df_mapping dataframe ids video_id s id :
  find_values_with_video_id df_mapping video_id = Ok (Some s) ->
  ~ (seg_fps s == 0)%Q ->
  id ∈ ids ->
  with_unique_id id dataframe = [] ->
  time_to_cross df_mapping dataframe ids video_id = Raise IndexError.
Proof.
  intros Hfind Hfps Hin Hnone. unfold time_to_cross. rewrite Hfind. simpl.
  generalize (∅ : gmap Z Q).
  induction ids as [|i ids IH]; intros var; [by apply elem_of_nil in Hin|].
  simpl. destruct (decide (with_unique_id i dataframe = [])) as [Hi|Hi].
  - by rewrite time_to_cross_id_absent.
  - rewrite time_to_cross_id_ok by done. simpl. apply IH.
    apply elem_of_cons in Hin as [->|Hin]; [contradiction | exact Hin].
Qed.

Lemma time_to_cross_absent_track_witness :
  time_to_cross Samples.mapping Samples.walker [1; 8] Samples.key_0 = Raise IndexError.
Proof.
  apply (time_to_cross_absent_track Samples.mapping Samples.walker [1; 8] Samples.key_0
           (mkSegment "abc" 0 30 0 "Delft" "unknown" 1000 2000 170 "NLD" 10) 8).
  - reflexivity.
  - intros H. vm_compute in H. discriminate H.
  - right. left.
  - reflexivity.
Defined.

Lemma crossing_ids_have_tracks df min_x max_x person_id id :
  id ∈ (pedestrian_crossing df min_x max_x person_id).2 ->
  with_unique_id id df <> [].
Proof.
  intros H. apply elem_of_pedestrian_crossing in H as [(r & Hr & Hu & _) _].
  assert (Hin : r ∈ with_unique_id id df) by (by apply elem_of_with_unique_id).
  intros Hnil. rewrite Hnil in Hin. by apply elem_of_nil in Hin.
Qed.

(** X4: on the identities that [pedestrian_crossing] returns for the same
    table, with metadata found and a non-zero frame rate, [time_to_cross]
    succeeds, and the dictionary it returns has exactly those identities as
    keys: its size is the crossing count. *)
Theorem crossing_times_cover_crossings df_mapping df min_x max_x person_id video_id s :
  find_values_with_video_id df_mapping video_id = Ok (Some s) ->
  ~ (seg_fps s == 0)%Q ->
  exists var,
    time_to_cross df_mapping df (pedestrian_crossing df min_x max_x person_id).2 video_id
    = Ok var /\
    (forall id, is_Some (var !! id)
                <-> id ∈ (pedestrian_crossing df min_x max_x person_id).2) /\
    size var = (pedestrian_crossing df min_x max_x person_id).1.
Proof.
  intros Hfind Hfps. unfold time_to_cross. rewrite Hfind. simpl.
  set (ids := (pedestrian_crossing df min_x max_x person_id).2).
  destruct (time_to_cross_loop df (seg_fps s) ids ∅) as (var & Hrun & Hin & Hout);
    [intros id; apply crossing_ids_have_tracks | exact Hfps |].
  exists var. split; [exact Hrun|].
  assert (Hkeys : forall id, is_Some (var !! id) <-> id ∈ ids).
  { intros id. split.
    - intros Hsome. destruct (decide (id ∈ ids)) as [|Hno]; [done|].
      rewrite (Hout _ Hno), lookup_empty in Hsome. by destruct Hsome.
    - intros Hid. rewrite (Hin _ Hid). eauto. }
  split; [exact Hkeys|].
  change ((pedestrian_crossing df min_x max_x person_id).1) with (length ids).
  rewrite <- size_dom.
  assert (Hdom : dom var = list_to_set ids).
  { apply set_eq. intros id. rewrite elem_of_dom, elem_of_list_to_set. apply Hkeys. }
  rewrite Hdom. apply size_list_to_set, NoDup_unique.
Qed.

Lemma crossing_times_cover_crossings_witness :
  exists var,
    time_to_cross Samples.mapping Samples.walker
      (pedestrian_crossing Samples.walker 0.45 0.55 0).2 Samples.key_0 = Ok var /\
    (forall id, is_Some (var !! id)
                <-> id ∈ (pedestrian_crossing Samples.walker 0.45 0.55 0).2) /\
    size var = (pedestrian_crossing Samples.walker 0.45 0.55 0).1.
Proof.
  apply (crossing_times_cover_crossings Samples.mapping Samples.walker 0.45 0.55 0
           Samples.key_0 (mkSegment "abc" 0 30 0 "Delft" "unknown" 1000 2000 170 "NLD" 10)).
  - reflexivity.
  - intros H. vm_compute in H. discriminate H.
Defined.

Lemma fold_Qmin_le xs : forall a,
  (fold_left Qmin xs a <= a)%Q /\ forall v, v ∈ xs -> (fold_left Qmin xs a <= v)%Q.
Proof.
  induction xs as [|y xs IH]; intros a; simpl.
  - split; [apply Qle_refl|]. intros v H. by apply elem_of_nil in H.
  - destruct (IH (Qmin a y)) as [Hhead Htail]. split.
    + eapply Qle_trans; [exact Hhead | apply Q.le_min_l].
    + intros v Hv. apply elem_of_cons in Hv as [->|Hv]; [|by apply Htail].
      eapply Qle_trans; [exact Hhead | apply Q.le_min_r].
Qed.

Lemma fold_Qmax_ge xs : forall a,
  (a <= fold_left Qmax xs a)%Q /\ forall v, v ∈ xs -> (v <= fold_left Qmax xs a)%Q.
Proof.
  induction xs as [|y xs IH]; intros a; simpl.
  - split; [apply Qle_refl|]. intros v H. by apply elem_of_nil in H.
  - destruct (IH (Qmax a y)) as [Hhead Htail]. split.
    + eapply Qle_trans; [apply Q.le_max_l | exact Hhead].
    + intros v Hv. apply elem_of_cons in Hv as [->|Hv]; [|by apply Htail].
      eapply Qle_trans; [apply Q.le_max_r | exact Hhead].
Qed.

Lemma series_min_le x xs v : v ∈ x :: xs -> (series_min x xs <= v)%Q.
Proof.
  unfold series_min. destruct (fold_Qmin_le xs x) as [Hhead Htail].
  intros H. apply elem_of_cons in H as [->|H]; [exact Hhead | by apply Htail].
Qed.

Lemma series_max_ge x xs v : v ∈ x :: xs -> (v <= series_max x xs)%Q.
Proof.
  unfold series_max. destruct (fold_Qmax_ge xs x) as [Hhead Htail].
  intros H. apply elem_of_cons in H as [->|H]; [exact Hhead | by apply Htail].
Qed.

Lemma first_pos_holds {A} (f : A -> bool) (l : list A) :
  existsb f l = true -> exists a, l !! first_pos f l = Some a /\ f a = true.
Proof.
  induction l as [|a l IH]; simpl; [discriminate|].
  destruct (f a) eqn:E; simpl; [eauto|]. exact IH.
Qed.

(** A track whose extremes differ needs at least two rows to go from one to
    the other. *)
Lemma rows_walked_at_least_two x xs :
  ~ (series_min x xs == series_max x xs)%Q -> (2 <= rows_walked (x :: xs))%nat.
Proof.
  intros Hne. rewrite rows_walked_distance.
  pose proof (existsb_Qeq_elem _ _ (series_min_elem x xs)) as Hmin.
  pose proof (existsb_Qeq_elem _ _ (series_max_elem x xs)) as Hmax.
  destruct (first_pos_holds _ _ Hmin) as (a & Ha & Ea).
  destruct (first_pos_holds _ _ Hmax) as (b & Hb & Eb).
  fold (first_index (series_min x xs) (x :: xs)) in Ha.
  fold (first_index (series_max x xs) (x :: xs)) in Hb.
  assert (Hdiff : first_index (series_min x xs) (x :: xs)
                  <> first_index (series_max x xs) (x :: xs)).
  { intros Heq. rewrite Heq, Hb in Ha. injection Ha as ->.
    apply Qeq_bool_iff in Ea, Eb. apply Hne. by rewrite <- Ea, <- Eb. }
  destruct (Nat.ltb_spec (first_index (series_min x xs) (x :: xs))
                         (first_index (series_max x xs) (x :: xs))); lia.
Qed.

Lemma crossing_track_extremes_differ df min_x max_x person_id id x xs :
  (min_x < max_x)%Q ->
  id ∈ (pedestrian_crossing df min_x max_x person_id).2 ->
  map X_center (with_unique_id id df) = x :: xs ->
  ~ (series_min x xs == series_max x xs)%Q.
Proof.
  intros Hband Hid Hxs Heq.
  apply elem_of_pedestrian_crossing in Hid as [(r1 & H1 & U1 & _ & L1) (r2 & H2 & U2 & _ & L2)].
  assert (E1 : X_center r1 ∈ x :: xs).
  { rewrite <- Hxs. apply list_elem_of_fmap. exists r1. split; [done|].
    by apply elem_of_with_unique_id. }
  assert (E2 : X_center r2 ∈ x :: xs).
  { rewrite <- Hxs. apply list_elem_of_fmap. exists r2. split; [done|].
    by apply elem_of_with_unique_id. }
  apply series_min_le in E1. apply series_max_ge in E2.
  apply (Qlt_not_le _ _ Hband).
  eapply Qle_trans; [exact L2|]. eapply Qle_trans; [exact E2|].
  rewrite <- Heq. eapply Qle_trans; [exact E1 | exact L1].
Qed.

(** X5: when the left threshold is strictly left of the right one and the
    frame rate is positive, every time that [time_to_cross] stores for an
    identity of [pedestrian_crossing] spans at least two rows: it is at
    least 2 / fps, and so never zero. *)
Theorem crossing_times_at_least_two_frames
    df_mapping df min_x max_x person_id video_id s var id t :
  find_values_with_video_id df_mapping video_id = Ok (Some s) ->
  (0 < seg_fps s)%Q ->
  (min_x < max_x)%Q ->
  time_to_cross df_mapping df (pedestrian_crossing df min_x max_x person_id).2 video_id
  = Ok var ->
  var !! id = Some t ->
  (2 / seg_fps s <= t)%Q /\ (0 < t)%Q.
Proof.
  intros Hfind Hfps Hband Hrun Hid.
  assert (Hfps' : ~ (seg_fps s == 0)%Q).
  { intros H. rewrite H in Hfps. by apply (Qlt_irrefl 0). }
  unfold time_to_cross in Hrun. rewrite Hfind in Hrun. simpl in Hrun.
  set (ids := (pedestrian_crossing df min_x max_x person_id).2) in *.
  destruct (time_to_cross_loop df (seg_fps s) ids ∅) as (var' & Hrun' & Hin & Hout);
    [intros i; apply crossing_ids_have_tracks | exact Hfps' |].
  assert (Hsame : Ok var = Ok var') by (etrans; [symmetry; exact Hrun | exact Hrun']).
  injection Hsame as <-.
  assert (Hmem : id ∈ ids).
  { destruct (decide (id ∈ ids)) as [|Hno]; [done|].
    rewrite (Hout _ Hno), lookup_empty in Hid. discriminate. }
  rewrite (Hin _ Hmem) in Hid. injection Hid as <-. unfold seconds_walked.
  destruct (map X_center (with_unique_id id df)) as [|x xs] eqn:Hxs.
  { exfalso. apply (crossing_ids_have_tracks _ _ _ _ _ Hmem).
    by destruct (with_unique_id id df). }
  pose proof (rows_walked_at_least_two x xs
                (crossing_track_extremes_differ _ _ _ _ _ _ _ Hband Hmem Hxs)) as Hrows.
  assert (Hinv : (0 < / seg_fps s)%Q) by (by apply Qinv_lt_0_compat).
  assert (Hle : (2 / seg_fps s <= inject_Z (Z.of_nat (rows_walked (x :: xs))) / seg_fps s)%Q).
  { unfold Qdiv. apply Qmult_le_compat_r; [|by apply Qlt_le_weak].
    change 2%Q with (inject_Z 2). rewrite <- Zle_Qle. lia. }
  split; [exact Hle|].
  eapply Qlt_le_trans; [|exact Hle].
  unfold Qdiv. apply Qmult_lt_0_compat; [reflexivity | exact Hinv].
Qed.

Lemma crossing_times_at_least_two_frames_witness :
  (2 / 10 <= 9 # 10)%Q /\ (0 < 9 # 10)%Q.
Proof.
  apply (crossing_times_at_least_two_frames Samples.mapping Samples.walker 0.45 0.55 0
           Samples.key_0 (mkSegment "abc" 0 30 0 "Delft" "unknown" 1000 2000 170 "NLD" 10)
           {[ 1 := 9 # 10 ]} 1 (9 # 10)).
  - reflexivity.
  - reflexivity.
  - reflexivity.
  - vm_compute. reflexivity.
  - reflexivity.
Defined.

(** ** The mapping lookup *)

Lemma find_start_found start_ start counter v n :
  find_start start_ start counter = Some (v, n) ->
  v = start_ /\ exists j, n = (counter + j)%nat /\ start !! j = Some start_.
Proof.
  revert counter. induction start as [|x start IH]; intros counter; simpl; [discriminate|].
  destruct (start_ =? x) eqn:E.
  - apply Z.eqb_eq in E. intros [= <- <-]. split; [done|]. exists 0%nat. split; [lia|].
    by subst.
  - intros H. apply IH in H as [-> (j & -> & Hj)]. split; [done|].
    exists (S j). split; [lia | exact Hj].
Qed.

Lemma find_in_videos_found key r video_ids start_times end_times tods fps_s s :
  find_in_videos key r video_ids start_times end_times tods fps_s = Ok (Some s) ->
  exists i j starts ends tod,
    video_ids !! i = Some (key_id key) /\
    start_times !! i = Some starts /\ starts !! j = Some (key_start key) /\
    end_times !! i = Some ends /\ ends !! j = Some (seg_end s) /\
    tods !! i = Some tod /\ tod !! j = Some (seg_time_of_day s) /\
    fps_s !! i = Some (seg_fps s) /\
    seg_video s = key_id key /\ seg_start s = key_start key /\
    seg_city s = city r /\ seg_state s = default "unknown"%string (state r) /\
    seg_population s = population_city r /\
    seg_population_country s = population_country r /\
    seg_avg_height s = avg_height r /\ seg_iso_country s = ISO_country r.
Proof.
  revert start_times end_times tods fps_s.
  induction video_ids as [|video video_ids IH];
    intros [|st sts] [|en ens] [|td tds] [|f fs]; simpl; try discriminate.
  assert (Hrest : find_in_videos key r video_ids sts ens tds fs = Ok (Some s) ->
                  exists i j starts ends tod,
                    (video :: video_ids) !! i = Some (key_id key) /\
                    (st :: sts) !! i = Some starts /\ starts !! j = Some (key_start key) /\
                    (en :: ens) !! i = Some ends /\ ends !! j = Some (seg_end s) /\
                    (td :: tds) !! i = Some tod /\ tod !! j = Some (seg_time_of_day s) /\
                    (f :: fs) !! i = Some (seg_fps s) /\
                    seg_video s = key_id key /\ seg_start s = key_start key /\
                    seg_city s = city r /\ seg_state s = default "unknown"%string (state r) /\
                    seg_population s = population_city r /\
                    seg_population_country s = population_country r /\
                    seg_avg_height s = avg_height r /\ seg_iso_country s = ISO_country r).
  { intros H. apply IH in H as (i & j & starts & ends & tod & H).
    exists (S i), j, starts, ends, tod. exact H. }
  destruct (String.eqb video (key_id key)) eqn:E; [|exact Hrest].
  apply String.eqb_eq in E.
  destruct (find_start (key_start key) st 0) as [[v n]|] eqn:Es; [|exact Hrest].
  apply find_start_found in Es as [-> (j & -> & Hj)]. simpl.
  destruct (en !! j) as [e|] eqn:Ee; [|discriminate].
  destruct (td !! j) as [t|] eqn:Et; [|discriminate].
  intros [= <-]. exists 0%nat, j, st, en, td. simpl.
  repeat split; try done. by rewrite E.
Qed.

Lemma find_values_found df key s :
  find_values_with_video_id df key = Ok (Some s) ->
  exists r, r ∈ df /\ segment_of_row key r s.
Proof.
  induction df as [|r df IH]; simpl; [discriminate|].
  destruct (find_in_videos key r (videos r) (start_time r) (end_time r)
              (time_of_day r) (fps_list r)) as [[s'|]|e] eqn:E; simpl; try discriminate.
  - intros [= <-]. exists r. split; [left|]. by apply find_in_videos_found.
  - intros H. destruct (IH H) as (r' & Hr' & Hs). exists r'. split; [by right | exact Hs].
Qed.

(** X6: a segment that [find_values_with_video_id] returns is an entry of
    some row of the mapping table for exactly the video id and start time
    of the key: its end time, time of day and frame rate stand at the same
    positions of that row's lists, its city, populations, average height
    and ISO code are the row's, and its state is the row's state, or
    "unknown" when that cell is missing. *)
Theorem lookup_returns_matching_entry df key s :
  find_values_with_video_id df key = Ok (Some s) ->
  exists r, r ∈ df /\ segment_of_row key r s.
Proof. apply find_values_found. Qed.

Lemma lookup_returns_matching_entry_witness :
  exists r, r ∈ Samples.mapping /\
    segment_of_row Samples.key_30 r
      (mkSegment "abc" 30 60 1 "Delft" "unknown" 1000 2000 170 "NLD" 10).
Proof.
  apply (lookup_returns_matching_entry Samples.mapping Samples.key_30).
  reflexivity.
Defined.




(** A row that spells its state "unknown" is looked up by video, but
    [get_value] then searches for a missing state and finds nothing. *)
Example get_value_misses_spelled_unknown :
  let df := [ mkMapping ["abc"] [[0]] [[30]] [[0]] "Delft" (Some "unknown"%string)
                        1000 2000 170 "NLD" [10%Q] ] in
  match find_values_with_video_id df Samples.key_0 with
  | Ok (Some s) => get_value df city (seg_city s) state (seg_state s) ISO_country = None
  | _ => False
  end.
Proof. reflexivity. Qed.

(** ** Crossings per city *)

Lemma counted_for_key_snoc df_mapping k visited kc :
  counted_for_key df_mapping k (visited ++ [kc])
  = (counted_for_key df_mapping k visited
     + if decide (key_of_segment df_mapping kc.1 = Some k) then kc.2 else 0)%nat.
Proof. unfold counted_for_key. rewrite sum_list_with_app. simpl. lia. Qed.

Lemma pedestrian_cross_per_city_totals pedestrian_crossing_count df_mapping final :
  pedestrian_cross_per_city pedestrian_crossing_count df_mapping = Ok final ->
  totals_per_key df_mapping
    (map (fun kv : video_key * (nat * list Z) => (kv.1, kv.2.1)) pedestrian_crossing_count)
    final.
Proof.
  unfold pedestrian_cross_per_city.
  apply (for_each_invariant _ (totals_per_key df_mapping)).
  - intros k. rewrite lookup_empty. split; [|reflexivity]. split.
    + intros [x Hx]. discriminate.
    + intros (kc & Hkc & _). by apply elem_of_nil in Hkc.
  - intros visited [key c] final0 final1 HI Hstep k. cbn [fst snd] in Hstep.
    rewrite counted_for_key_snoc. cbn [fst snd].
    destruct (HI k) as [Hdom Hsum].
    assert (Hlast : forall kc : video_key * nat,
              kc ∈ visited ++ [(key, c)] ->
              kc ∈ visited \/ kc = (key, c)).
    { intros kc Hkc. apply elem_of_app in Hkc as [Hkc|Hkc]; [by left|].
      right. by apply list_elem_of_singleton in Hkc. }
    assert (Hkey : key_of_segment df_mapping key
                   = match find_values_with_video_id df_mapping key with
                     | Ok (Some s) => Some (aggregate_key s)
                     | _ => None
                     end) by reflexivity.
    destruct (find_values_with_video_id df_mapping key) as [[s|]|e];
      simpl in Hstep; try discriminate.
    + assert (Hnew : final1 !! k
                     = if decide (aggregate_key s = k)
                       then Some (default 0 (final0 !! k) + Z.of_nat c)
                       else final0 !! k).
      { destruct (final0 !! aggregate_key s) as [total|] eqn:Et; injection Hstep as <-;
          rewrite lookup_insert; destruct (decide (aggregate_key s = k)) as [<-|];
          try reflexivity; rewrite Et; reflexivity. }
      rewrite Hnew, Hkey. destruct (decide (aggregate_key s = k)) as [Heq|Hne].
      * rewrite decide_True by congruence. split; [|simpl; lia].
        split; [|eauto]. intros _. exists (key, c). split; [apply elem_of_app; right; left|].
        cbn [fst]. rewrite Hkey. congruence.
      * rewrite decide_False by congruence. split; [|lia].
        rewrite Hdom. split.
        -- intros (kc & Hkc & Hk). exists kc. split; [apply elem_of_app; by left | exact Hk].
        -- intros (kc & Hkc & Hk). apply Hlast in Hkc as [Hkc| ->]; [eauto|].
           cbn [fst] in Hk. rewrite Hkey in Hk. congruence.
    + injection Hstep as <-. rewrite Hkey, decide_False by discriminate. split; [|lia].
      rewrite Hdom. split.
      * intros (kc & Hkc & Hk). exists kc. split; [apply elem_of_app; by left | exact Hk].
      * intros (kc & Hkc & Hk). apply Hlast in Hkc as [Hkc| ->]; [eauto|].
        cbn [fst] in Hk. rewrite Hkey in Hk. discriminate.
Qed.

(** X8: [pedestrian_cross_per_city] maps an aggregate key to the sum of the
    crossing counts of all the segments that fall under it, whatever their
    videos; it has a key exactly for the aggregate keys of the segments
    whose metadata is found, and segments without metadata add nothing. *)
Theorem crossings_per_city_are_sums pedestrian_crossing_count df_mapping final k :
  pedestrian_cross_per_city pedestrian_crossing_count df_mapping = Ok final ->
  (is_Some (final !! k)
   <-> exists entry, entry ∈ pedestrian_crossing_count
                     /\ key_of_segment df_mapping entry.1 = Some k) /\
  default 0 (final !! k)
  = Z.of_nat (counted_for_key df_mapping k
                (map (fun kv : video_key * (nat * list Z) => (kv.1, kv.2.1))
                     pedestrian_crossing_count)).
Proof.
  intros Hrun. destruct (pedestrian_cross_per_city_totals _ _ _ Hrun k) as [Hdom Hsum].
  split; [|exact Hsum]. rewrite Hdom. split.
  - intros (kc & Hkc & Hk). apply list_elem_of_fmap in Hkc as (entry & -> & Hentry).
    exists entry. split; [exact Hentry | exact Hk].
  - intros (entry & Hentry & Hk). exists (entry.1, entry.2.1). split; [|exact Hk].
    apply list_elem_of_fmap. exists entry. split; [reflexivity | exact Hentry].
Qed.

Lemma crossings_per_city_are_sums_witness :
  (is_Some (({[ "Delft_unknown_0"%string := 6 ]} : gmap string Z) !! "Delft_unknown_0"%string)
   <-> exists entry, entry ∈ MoreSamples.crossing_counts
                     /\ key_of_segment Samples.mapping_day entry.1
                        = Some "Delft_unknown_0"%string) /\
  default 0 (({[ "Delft_unknown_0"%string := 6 ]} : gmap string Z) !! "Delft_unknown_0"%string)
  = Z.of_nat (counted_for_key Samples.mapping_day "Delft_unknown_0"
                (map (fun kv : video_key * (nat * list Z) => (kv.1, kv.2.1))
                     MoreSamples.crossing_counts)).
Proof.
  apply (crossings_per_city_are_sums MoreSamples.crossing_counts Samples.mapping_day).
  vm_compute. reflexivity.
Defined.

(** ** From the analysis loop to the per-city figures *)

Lemma time_to_cross_loop_stores dataframe fps ids (var0 var : gmap Z Q) :
  (forall id, id ∈ ids -> with_unique_id id dataframe <> []) ->
  for_each (time_to_cross_id dataframe fps) ids var0 = Ok var ->
  (forall id, id ∈ ids -> is_Some (var !! id)) /\
  (forall id, is_Some (var0 !! id) -> is_Some (var !! id)).
Proof.
  revert var0. induction ids as [|i ids IH]; intros var0 Hne; simpl.
  - intros [= <-]. split; [|done]. intros id H. by apply elem_of_nil in H.
  - rewrite time_to_cross_id_walked by (apply Hne; left).
    destruct fps as [f|]; [|discriminate].
    destruct (divide _ f) as [t|e]; simpl; [|discriminate].
    intros Hrun. apply IH in Hrun as [Hin Hkeep].
    2:{ intros id Hid. apply Hne. by right. }
    split.
    + intros id Hid. apply elem_of_cons in Hid as [->|Hid]; [|by apply Hin].
      apply Hkeep. rewrite lookup_insert_eq. eauto.
    + intros id Hid. apply Hkeep. rewrite lookup_insert.
      destruct (decide (i = id)); [eauto | exact Hid].
Qed.

Lemma items_in_order_length ids (var : gmap Z Q) :
  (forall id, id ∈ ids -> is_Some (var !! id)) ->
  length (items_in_order ids var) = length ids.
Proof.
  unfold items_in_order. induction ids as [|i ids IH]; intros H; simpl; [reflexivity|].
  destruct (H i) as [t Ht]; [left|]. rewrite Ht. simpl. f_equal.
  apply IH. intros id Hid. apply H. by right.
Qed.

(** Whenever [time_to_cross] returns on the identities of the crossing
    detector, every one of them has its entry. *)
Lemma analysed_events_match_count df_mapping df key var :
  time_to_cross df_mapping df (pedestrian_crossing df road_min_x road_max_x 0).2 key
  = Ok var ->
  length (items_in_order (pedestrian_crossing df road_min_x road_max_x 0).2 var)
  = (pedestrian_crossing df road_min_x road_max_x 0).1.
Proof.
  intros Hrun. unfold time_to_cross in Hrun.
  destruct (find_values_with_video_id df_mapping key) as [result|e]; [|discriminate].
  change ((pedestrian_crossing df road_min_x road_max_x 0).1)
    with (length (pedestrian_crossing df road_min_x road_max_x 0).2).
  apply items_in_order_length.
  apply (time_to_cross_loop_stores df (seg_fps <$> result) _ ∅ var); [|exact Hrun].
  intros id. apply crossing_ids_have_tracks.
Qed.

Lemma crossing_event_counters_add_up df_mapping dfs data st :
  crossing_event_wt_traffic_equipment df_mapping dfs data = Ok st ->
  counters_add_up df_mapping data st.
Proof.
  apply (for_each_invariant _ (counters_add_up df_mapping)).
  - intros k. simpl. rewrite !lookup_empty. reflexivity.
  - intros visited entry s s'. apply equipment_segment_counters.
Qed.

Lemma analyse_tables_aligned df_mapping dfs counts data :
  analyse_tables df_mapping dfs = Ok (counts, data) ->
  Forall2 (fun (c : video_key * (nat * list Z)) (d : video_key * list (Z * Q)) =>
             c.1 = d.1 /\ c.2.1 = length d.2) counts data.
Proof.
  intros Hrun.
  apply (for_each_invariant _
           (fun _ acc =>
              Forall2 (fun (c : video_key * (nat * list Z)) (d : video_key * list (Z * Q)) =>
                         c.1 = d.1 /\ c.2.1 = length d.2) acc.1 acc.2)) in Hrun.
  - exact Hrun.
  - constructor.
  - intros _ [key df] [counts0 data0] acc' HI Hstep. unfold analyse_table in Hstep.
    destruct (pedestrian_crossing df road_min_x road_max_x 0) as [count ids] eqn:Epc.
    destruct (time_to_cross df_mapping df ids key) as [var|e] eqn:Etime; [|discriminate].
    simpl in Hstep. injection Hstep as <-. simpl in *.
    apply Forall2_app; [exact HI|]. constructor; [|constructor]. simpl. split; [done|].
    pose proof (analysed_events_match_count df_mapping df key var) as Hlen.
    rewrite Epc in Hlen. simpl in Hlen. symmetry. by apply Hlen.
Qed.

Lemma aligned_totals df_mapping k counts data :
  Forall2 (fun (c : video_key * (nat * list Z)) (d : video_key * list (Z * Q)) =>
             c.1 = d.1 /\ c.2.1 = length d.2) counts data ->
  counted_for_key df_mapping k
    (map (fun kv : video_key * (nat * list Z) => (kv.1, kv.2.1)) counts)
  = crossing_events df_mapping k data.
Proof.
  unfold counted_for_key, crossing_events.
  induction 1 as [|c d counts data [Hkey Hlen] _ IH]; simpl; [reflexivity|].
  rewrite IH, Hkey, Hlen. reflexivity.
Qed.

(** X9: for the crossing counts and crossing times that the analysis loop of
    the main block computes from the tables, the with- and
    without-infrastructure counts of every aggregate key add up to the
    per-city total that [pedestrian_cross_per_city] reports for that key. *)
Theorem equipment_counts_match_city_totals df_mapping dfs counts data st final k :
  analyse_tables df_mapping dfs = Ok (counts, data) ->
  crossing_event_wt_traffic_equipment df_mapping dfs data = Ok st ->
  pedestrian_cross_per_city counts df_mapping = Ok final ->
  default 0 (counter_1 st !! k) + default 0 (counter_2 st !! k) = default 0 (final !! k).
Proof.
  intros Hloop Hequip Hcity.
  rewrite (crossing_event_counters_add_up _ _ _ _ Hequip k).
  destruct (pedestrian_cross_per_city_totals _ _ _ Hcity k) as [_ ->].
  f_equal. symmetry. apply aligned_totals. by apply (analyse_tables_aligned df_mapping dfs).
Qed.

Lemma equipment_counts_match_city_totals_witness :
  default 0 (counter_1 MoreSamples.analysed_state !! "Delft_unknown_0"%string)
  + default 0 (counter_2 MoreSamples.analysed_state !! "Delft_unknown_0"%string)
  = default 0 (({[ "Delft_unknown_0"%string := 1 ]} : gmap string Z)
               !! "Delft_unknown_0"%string).
Proof.
  apply (equipment_counts_match_city_totals Samples.mapping Samples.dfs
           MoreSamples.analysed_counts MoreSamples.analysed_data).
  - vm_compute. reflexivity.
  - vm_compute. reflexivity.
  - vm_compute. reflexivity.
Defined.

(** ** Start-of-crossing latency: how long a recorded track must be *)

Lemma scan_strides_upper_bound steady x_values strides flag consecutive_frame n :
  scan_strides steady x_values strides flag consecutive_frame = Ok (Some n) ->
  (n + 1 <= consecutive_frame + length strides)%nat.
Proof.
  revert flag consecutive_frame.
  induction strides as [|i strides IH]; intros flag cf; simpl; [discriminate|].
  intros H. outcome_inv H. destruct (steady a a0).
  - apply IH in H. lia.
  - destruct flag.
    + injection H as <-. lia.
    + apply IH in H. lia.
Qed.

Lemma range_by_10_length len :
  length (range_by_10 len) = ((len - 10 + 9) / 10)%nat.
Proof. unfold range_by_10. by rewrite length_map, length_seq. Qed.

(** X10: a track for which [time_to_start_cross] records a latency of [n]
    strides has [n >= 3] and at least [10 n + 11] rows; so no track of
    fewer than 41 rows is ever recorded. *)
Theorem recorded_track_length group_data n :
  start_of_track group_data = Ok (Some n) ->
  (3 <= n)%nat /\ (10 * n + 11 <= length group_data)%nat /\
  (41 <= length group_data)%nat.
Proof.
  unfold start_of_track. intros H. outcome_inv H.
  assert (H3 : (3 <= n)%nat).
  { eapply scan_strides_at_least_three; [|exact H]. discriminate. }
  apply scan_strides_upper_bound in H.
  rewrite range_by_10_length, length_map in H.
  pose proof (Nat.div_mod_eq (length group_data - 10 + 9) 10) as Hdiv.
  pose proof (Nat.mod_upper_bound (length group_data - 10 + 9) 10) as Hmod.
  lia.
Qed.

Lemma recorded_track_length_witness :
  (3 <= 3)%nat /\ (10 * 3 + 11 <= length Samples.left_starter)%nat /\
  (41 <= length Samples.left_starter)%nat.
Proof.
  apply (recorded_track_length Samples.left_starter 3).
  vm_compute. reflexivity.
Defined.

(** ** Traffic signs of segments with distinct aggregate keys *)

Lemma traffic_signs_loop_fresh count df_mapping dfs :
  forall info duration_,
  NoDup (aggregate_keys df_mapping dfs) ->
  (forall k, k ∈ aggregate_keys df_mapping dfs -> info !! k = None) ->
  for_each (traffic_signs_segment count df_mapping) dfs (info, duration_)
  = for_each (traffic_signs_segment None df_mapping) dfs (info, duration_) /\
  forall info' duration_',
    for_each (traffic_signs_segment count df_mapping) dfs (info, duration_)
    = Ok (info', duration_') ->
    (forall k, k ∉ aggregate_keys df_mapping dfs -> info' !! k = info !! k) /\
    (forall key df s, (key, df) ∈ dfs ->
       find_values_with_video_id df_mapping key = Ok (Some s) ->
       info' !! aggregate_key s = Some (instruments_per_minute df s)).
Proof.
  induction dfs as [|[key df] dfs IH]; intros info duration_ Hdistinct Hfresh.
  { split; [reflexivity|]. intros info' d' [= <- <-]. split; [done|].
    intros key df s H. by apply elem_of_nil in H. }
  assert (Hkey : key_of_segment df_mapping key
                 = match find_values_with_video_id df_mapping key with
                   | Ok (Some s) => Some (aggregate_key s)
                   | _ => None
                   end) by reflexivity.
  unfold aggregate_keys in Hdistinct, Hfresh |- *. simpl in Hdistinct, Hfresh |- *.
  fold (aggregate_keys df_mapping dfs) in Hdistinct, Hfresh |- *.
  destruct (find_values_with_video_id df_mapping key) as [[s|]|e] eqn:Efind.
  - rewrite Hkey in Hdistinct, Hfresh |- *. simpl in Hdistinct, Hfresh |- *.
    apply NoDup_cons in Hdistinct as [Hnew Hdistinct].
    rewrite (Hfresh (aggregate_key s)) by left.
    destruct (divide _ (inject_Z (seg_end s - seg_start s))) as [per_second|e] eqn:Ediv.
    2:{ simpl. split; [reflexivity | discriminate]. }
    simpl.
    assert (Hfresh' : forall k, k ∈ aggregate_keys df_mapping dfs ->
                        (<[aggregate_key s := (per_second * 60)%Q]> info) !! k = None).
    { intros k Hk. rewrite lookup_insert_ne; [apply Hfresh; by right|].
      intros <-. contradiction. }
    destruct (IH _ duration_ Hdistinct Hfresh') as [Hsame Hres].
    split; [exact Hsame|].
    intros info' d' Hrun. destruct (Hres _ _ Hrun) as [Hother Hentries]. split.
    + intros k Hk. apply not_elem_of_cons in Hk as [Hne Hk].
      rewrite (Hother _ Hk). by apply lookup_insert_ne.
    + intros key' df' s' Hin Hfind'. apply elem_of_cons in Hin as [[= -> ->]|Hin].
      * rewrite Efind in Hfind'. injection Hfind' as <-.
        rewrite (Hother _ Hnew), lookup_insert_eq. f_equal.
        apply divide_ok in Ediv as [_ ->]. reflexivity.
      * by apply (Hentries key' df').
  - rewrite Hkey in Hdistinct, Hfresh |- *. simpl.
    destruct (IH info duration_ Hdistinct Hfresh) as [Hsame Hres].
    split; [exact Hsame|].
    intros info' d' Hrun. destruct (Hres _ _ Hrun) as [Hother Hentries].
    split; [exact Hother|].
    intros key' df' s' Hin Hfind'. apply elem_of_cons in Hin as [[= -> ->]|Hin].
    + rewrite Efind in Hfind'. discriminate.
    + by apply (Hentries key' df').
  - simpl. split; [reflexivity | discriminate].
Qed.

(** X11: when no two tables fall under the same aggregate key,
    [traffic_signs] never reads the unbound name [count]: its result is the
    same whatever [count] is, bound or not, and it maps the aggregate key of
    every table with metadata to that table's number of traffic
    instruments per minute, (count of instrument identities / duration) x 60. *)
Theorem traffic_signs_distinct_keys count df_mapping dfs :
  NoDup (aggregate_keys df_mapping dfs) ->
  traffic_signs count df_mapping dfs = traffic_signs None df_mapping dfs /\
  forall info, traffic_signs count df_mapping dfs = Ok info ->
    forall key df s, (key, df) ∈ dfs ->
      find_values_with_video_id df_mapping key = Ok (Some s) ->
      info !! aggregate_key s = Some (instruments_per_minute df s).
Proof.
  intros Hdistinct.
  destruct (traffic_signs_loop_fresh count df_mapping dfs ∅ ∅ Hdistinct)
    as [Hsame Hres]; [intros k _; apply lookup_empty|].
  unfold traffic_signs. split; [by rewrite Hsame|].
  intros info Hrun.
  destruct (for_each (traffic_signs_segment count df_mapping) dfs (∅, ∅))
    as [[info' d']|e]; [|discriminate].
  simpl in Hrun. injection Hrun as <-.
  destruct (Hres info' d' eq_refl) as [_ Hentries]. exact Hentries.
Qed.

Lemma traffic_signs_distinct_keys_witness :
  traffic_signs (Some 5) Samples.mapping Samples.dfs_signs
  = traffic_signs None Samples.mapping Samples.dfs_signs /\
  forall info, traffic_signs (Some 5) Samples.mapping Samples.dfs_signs = Ok info ->
    forall key df s, (key, df) ∈ Samples.dfs_signs ->
      find_values_with_video_id Samples.mapping key = Ok (Some s) ->
      info !! aggregate_key s = Some (instruments_per_minute df s).
Proof.
  apply (traffic_signs_distinct_keys (Some 5) Samples.mapping Samples.dfs_signs).
  vm_compute. repeat constructor; intros H.
  - apply elem_of_cons in H as [H|H]; [discriminate | by apply elem_of_nil in H].
  - by apply elem_of_nil in H.
Defined.

(** ** The two normalised rates together *)



(** ** Averages of the retained speeds *)






(** ** At most one speed per crossing event *)

Lemma speed_of_events_count value s df (d d' : gmap string (list Q)) :
  for_each (speed_of_event value s) df d = Ok d' ->
  forall k, (length (default [] (d' !! k))
             <= length (default [] (d !! k))
                + if decide (aggregate_key s = k) then length df else 0)%nat.
Proof.
  intros Hrun.
  pose (I := fun (visited : list (Z * Q)) (acc : gmap string (list Q)) =>
               forall k, (length (default [] (acc !! k))
                          <= length (default [] (d !! k))
                             + if decide (aggregate_key s = k)
                               then length visited else 0)%nat).
  assert (Hinv : I df d').
  { revert Hrun. apply (for_each_invariant _ I).
    - intros k. destruct (decide (aggregate_key s = k)); simpl; lia.
    - intros visited event acc acc' HI Hstep k. specialize (HI k).
      apply speed_of_event_step in Hstep as [-> | (v & _ & ->)].
      + rewrite length_app. destruct (decide (aggregate_key s = k)); simpl; lia.
      + rewrite lookup_dict_append, length_app.
        destruct (decide (aggregate_key s = k)) as [<-|]; simpl; [|lia].
        rewrite length_app. simpl. lia. }
  exact Hinv.
Qed.

(** X14: [calculate_speed_of_crossing] keeps at most one speed per crossing
    event: for every aggregate key, the list it returns is no longer than
    the number of crossing events of the segments under that key. *)
Theorem speeds_at_most_events df_mapping dfs data d k :
  calculate_speed_of_crossing df_mapping dfs data = Ok d ->
  (length (default [] (d !! k)) <= crossing_events df_mapping k data)%nat.
Proof.
  intros Hrun.
  pose (I := fun (visited : list (video_key * list (Z * Q)))
                 (acc : gmap string (list Q)) =>
               forall k, (length (default [] (acc !! k))
                          <= crossing_events df_mapping k visited)%nat).
  assert (Hinv : I data d).
  { revert Hrun. apply (for_each_invariant _ I).
    - intros k0. rewrite lookup_empty. simpl. lia.
    - intros visited [key df] acc acc' HI Hstep k0. specialize (HI k0).
      rewrite crossing_events_snoc. cbn [fst snd].
      assert (Hkey : key_of_segment df_mapping key
                     = match find_values_with_video_id df_mapping key with
                       | Ok (Some s) => Some (aggregate_key s)
                       | _ => None
                       end) by reflexivity.
      unfold speed_of_segment in Hstep.
      destruct df as [|event df]; [injection Hstep as <-; lia|].
      destruct (find_values_with_video_id df_mapping key) as [[s|]|e];
        unfold mbind, outcome_bind in Hstep; cbv beta iota in Hstep; try discriminate.
      + apply speed_of_events_count with (k := k0) in Hstep. rewrite Hkey.
        destruct (decide (aggregate_key s = k0)) as [Heq|Hne].
        * rewrite decide_True by congruence. lia.
        * rewrite decide_False by congruence. lia.
      + injection Hstep as <-. lia. }
  exact (Hinv k).
Qed.

Lemma speeds_at_most_events_witness :
  (length (default [] (({[ "Delft_unknown_0"%string := [3672000 # 3060000] ]}
                        : gmap string (list Q)) !! "Delft_unknown_0"%string))
   <= crossing_events Samples.mapping "Delft_unknown_0" Samples.data_at_limit)%nat.
Proof.
  apply (speeds_at_most_events Samples.mapping Samples.dfs Samples.data_at_limit).
  vm_compute. reflexivity.
Defined.

(** ** Traffic-control objects within a track's span *)






(** ** Total seconds of the mapping table *)

Lemma fold_left_add {A} (f : A -> Z) (l : list A) (a : Z) :
  fold_left (fun total x => total + f x) l a = a + Zsum (map f l).
Proof.
  revert a. induction l as [|x l IH]; intros a; simpl; [unfold Zsum; simpl; lia|].
  rewrite IH. unfold Zsum. simpl. lia.
Qed.

Lemma Zsum_nonneg l : (forall x, x ∈ l -> 0 <= x) -> 0 <= Zsum l.
Proof.
  unfold Zsum. induction l as [|y l IH]; intros H; simpl; [lia|].
  assert (0 <= y) by (apply H; left).
  assert (0 <= foldr Z.add 0 l) by (apply IH; intros x Hx; apply H; by right). lia.
Qed.

Lemma Zsum_elem_le l x : (forall y, y ∈ l -> 0 <= y) -> x ∈ l -> x <= Zsum l.
Proof.
  induction l as [|y l IH]; intros H Hx; [by apply elem_of_nil in Hx|].
  assert (Hy : 0 <= y) by (apply H; left).
  assert (Hl : 0 <= Zsum l) by (apply Zsum_nonneg; intros z Hz; apply H; by right).
  unfold Zsum in *. simpl.
  apply elem_of_cons in Hx as [->|Hx]; [lia|].
  assert (x <= foldr Z.add 0 l) by (apply IH; [intros z Hz; apply H; by right | exact Hx]).
  lia.
Qed.

Lemma Zsum_cons x l : Zsum (x :: l) = x + Zsum l.
Proof. reflexivity. Qed.

Lemma calculate_total_seconds_sum df :
  calculate_total_seconds df = Zsum (map row_seconds df).
Proof.
  unfold calculate_total_seconds.
  assert (G : forall a,
             fold_left
               (fun grand_total_seconds r =>
                  fold_left
                    (fun total (se : list Z * list Z) =>
                       fold_left (fun total (p : Z * Z) => total + (p.2 - p.1))
                                 (zip se.1 se.2) total)
                    (zip (start_time r) (end_time r)) grand_total_seconds)
               df a
             = a + Zsum (map row_seconds df)).
  { induction df as [|r df IH]; intros a; [simpl; unfold Zsum; simpl; lia|].
    cbn [fold_left map]. rewrite IH, Zsum_cons.
    assert (Hrow : forall l b,
               fold_left
                 (fun total (se : list Z * list Z) =>
                    fold_left (fun total (p : Z * Z) => total + (p.2 - p.1))
                              (zip se.1 se.2) total) l b
               = b + Zsum (map video_seconds l)).
    { induction l as [|se l IHl]; intros b; [simpl; unfold Zsum; simpl; lia|].
      cbn [fold_left map]. rewrite IHl, fold_left_add, Zsum_cons.
      unfold video_seconds at 2. lia. }
    rewrite Hrow. unfold row_seconds. lia. }
  rewrite G. lia.
Qed.

(** X16: when no segment of the mapping table ends before it starts,
    [calculate_total_seconds] is at least the duration [end - start] of
    every segment that [find_values_with_video_id] can return. *)
Theorem total_seconds_cover_segment df key s :
  (forall r i j starts ends b e,
     r ∈ df -> start_time r !! i = Some starts -> end_time r !! i = Some ends ->
     starts !! j = Some b -> ends !! j = Some e -> b <= e) ->
  find_values_with_video_id df key = Ok (Some s) ->
  seg_end s - seg_start s <= calculate_total_seconds df.
Proof.
  intros Hord Hfind.
  destruct (find_values_found _ _ _ Hfind)
    as (r & Hr & i & j & starts & ends & tods & H).
  destruct H as (_ & Hst & Hj & Hen & He & _ & _ & _ & _ & Hstart & _).
  rewrite Hstart, calculate_total_seconds_sum.
  assert (Hvideo_nonneg : forall r' se, r' ∈ df ->
            se ∈ zip (start_time r') (end_time r') -> 0 <= video_seconds se).
  { intros r' [st en] Hr' Hse. apply list_elem_of_lookup in Hse as (i' & Hi').
    apply lookup_zip_with_Some in Hi' as (st' & en' & [= <- <-] & Hst' & Hen').
    apply Zsum_nonneg. intros x Hx. apply list_elem_of_fmap in Hx as ([b e] & -> & Hp).
    apply list_elem_of_lookup in Hp as (j' & Hj').
    apply lookup_zip_with_Some in Hj' as (b' & e' & [= <- <-] & Hb & He').
    simpl. pose proof (Hord r' i' j' st en b e Hr' Hst' Hen' Hb He'). lia. }
  assert (Hrow_nonneg : forall r', r' ∈ df -> 0 <= row_seconds r').
  { intros r' Hr'. apply Zsum_nonneg. intros x Hx.
    apply list_elem_of_fmap in Hx as (se & -> & Hse). by apply (Hvideo_nonneg r'). }
  etrans; [|apply (Zsum_elem_le _ (row_seconds r))].
  - etrans; [|apply (Zsum_elem_le _ (video_seconds (starts, ends)))].
    + apply (Zsum_elem_le _ (seg_end s - key_start key)).
      * intros x Hx. apply list_elem_of_fmap in Hx as ([b e] & -> & Hp).
        apply list_elem_of_lookup in Hp as (j' & Hj').
        apply lookup_zip_with_Some in Hj' as (b' & e' & [= <- <-] & Hb & He').
        simpl. pose proof (Hord r i j' starts ends b e Hr Hst Hen Hb He'). lia.
      * apply list_elem_of_fmap. exists (key_start key, seg_end s). split; [reflexivity|].
        apply list_elem_of_lookup. exists j. apply lookup_zip_with_Some.
        exists (key_start key), (seg_end s). repeat split; assumption.
    + intros x Hx. apply list_elem_of_fmap in Hx as (se & -> & Hse).
      by apply (Hvideo_nonneg r).
    + apply list_elem_of_fmap. exists (starts, ends). split; [reflexivity|].
      apply list_elem_of_lookup. exists i. apply lookup_zip_with_Some.
      exists starts, ends. repeat split; assumption.
  - intros x Hx. apply list_elem_of_fmap in Hx as (r' & -> & Hr'). by apply Hrow_nonneg.
  - apply list_elem_of_fmap. exists r. split; [reflexivity | exact Hr].
Qed.

Lemma total_seconds_cover_segment_witness :
  30 - 0 <= calculate_total_seconds Samples.mapping.
Proof.
  apply (total_seconds_cover_segment Samples.mapping Samples.key_0
           (mkSegment "abc" 0 30 0 "Delft" "unknown" 1000 2000 170 "NLD" 10)).
  - intros r i j starts ends b e Hr Hs He Hb Hee.
    apply list_elem_of_singleton in Hr. subst r.
    destruct i as [|[|i]]; simplify_eq/=.
    destruct j as [|[|[|j]]]; simplify_eq/=; lia.
  - reflexivity.
Defined.

(** ** Aggregate keys taken apart again *)

Example underscore_is_character : String underscore "" = "_"%string.
Proof. reflexivity. Qed.

Lemma split_on_length sep s : length (split_on sep s) = S (occurrences sep s).
Proof.
  induction s as [|c s IH]; simpl; [reflexivity|].
  destruct (Ascii.eqb c sep); simpl; [by rewrite IH|].
  destruct (split_on sep s); simpl in *; [discriminate | exact IH].
Qed.

Lemma split_on_whole sep s : occurrences sep s = 0%nat -> split_on sep s = [s].
Proof.
  induction s as [|c s IH]; simpl; [reflexivity|].
  destruct (Ascii.eqb c sep); simpl; [discriminate|].
  intros H. by rewrite (IH H).
Qed.

Lemma split_on_first sep a b :
  occurrences sep a = 0%nat ->
  split_on sep (a +:+ String sep b) = a :: split_on sep b.
Proof.
  induction a as [|c a IH]; simpl.
  - intros _. by rewrite Ascii.eqb_refl.
  - destruct (Ascii.eqb c sep); simpl; [discriminate|].
    intros H. by rewrite (IH H).
Qed.

Lemma occurrences_app c a b :
  occurrences c (a +:+ b) = (occurrences c a + occurrences c b)%nat.
Proof. induction a as [|c' a IH]; simpl; [reflexivity|]. rewrite IH. lia. Qed.

Lemma pretty_N_go_occurrences x s :
  occurrences underscore (pretty_N_go x s) = occurrences underscore s.
Proof.
  revert s. induction (N.lt_wf_0 x) as [x _ IH]; intros s.
  assert (x = 0 \/ 0 < x)%N as [->|Hpos] by lia.
  - by rewrite pretty_N_go_0.
  - rewrite pretty_N_go_step by done. rewrite IH by (by apply N.div_lt).
    simpl. unfold pretty_N_char. by repeat case_match.
Qed.

Lemma pretty_Z_no_underscore (z : Z) : occurrences underscore (pretty z) = 0%nat.
Proof.
  assert (HN : forall p, occurrences underscore (pretty (N.pos p)) = 0%nat).
  { intros p. unfold pretty, pretty_N. rewrite decide_False by discriminate.
    by rewrite pretty_N_go_occurrences. }
  destruct z as [|p|p]; [reflexivity | apply HN |].
  change (pretty (Z.neg p)) with ("-" +:+ pretty (N.pos p)).
  rewrite occurrences_app, HN. reflexivity.
Qed.

Lemma aggregate_key_shape s :
  aggregate_key s
  = seg_city s +:+ String underscore
      (seg_state s +:+ String underscore (pretty (seg_time_of_day s))).
Proof. reflexivity. Qed.

Lemma occurrences_aggregate_key s :
  occurrences underscore (aggregate_key s)
  = (occurrences underscore (seg_city s) + occurrences underscore (seg_state s) + 2)%nat.
Proof.
  unfold aggregate_key. rewrite !occurrences_app, pretty_Z_no_underscore. simpl. lia.
Qed.

(** X17: the key "city_state_condition" built for a segment splits back at
    its underscores into exactly that city, state and condition if and only
    if neither the city nor the state contains an underscore; if one of
    them does, the three-way unpacking of the split key fails. *)
Theorem aggregate_key_splits_back s :
  (split_key (aggregate_key s)
   = Some (seg_city s, seg_state s, pretty (seg_time_of_day s))
   <-> occurrences underscore (seg_city s) = 0%nat /\ occurrences underscore (seg_state s) = 0%nat) /\
  (occurrences underscore (seg_city s) <> 0%nat \/ occurrences underscore (seg_state s) <> 0%nat ->
   split_key (aggregate_key s) = None).
Proof.
  assert (Hlen : length (split_on underscore (aggregate_key s))
                 = (occurrences underscore (seg_city s) + occurrences underscore (seg_state s) + 3)%nat).
  { rewrite split_on_length, occurrences_aggregate_key. lia. }
  assert (Hthree : forall parts, split_key (aggregate_key s) = Some parts ->
                     length (split_on underscore (aggregate_key s)) = 3%nat).
  { unfold split_key. intros parts.
    destruct (split_on underscore (aggregate_key s)) as [|a [|b [|c [|d l]]]]; try discriminate.
    reflexivity. }
  split; [split|].
  - intros H. apply Hthree in H. lia.
  - intros [Hc Hs]. unfold split_key. rewrite aggregate_key_shape.
    rewrite (split_on_first underscore (seg_city s)) by exact Hc.
    rewrite (split_on_first underscore (seg_state s)) by exact Hs.
    rewrite split_on_whole by apply pretty_Z_no_underscore. reflexivity.
  - intros Hsome. destruct (split_key (aggregate_key s)) as [parts|] eqn:E; [|reflexivity].
    pose proof (Hthree parts eq_refl) as E3. lia.
Qed.

(** "New_York_NY_0" has four parts. *)
Example aggregate_key_with_underscore :
  aggregate_key MoreSamples.segment_underscore = "New_York_NY_0"%string /\
  split_on underscore (aggregate_key MoreSamples.segment_underscore)
  = ["New"; "York"; "NY"; "0"]%string /\
  split_key (aggregate_key MoreSamples.segment_underscore) = None.
Proof. repeat split. Qed.

(** ** Display names of cities *)

Lemma split_first_none s : occurrences underscore s = 0%nat -> split_first underscore s = None.
Proof.
  induction s as [|c s IH]; simpl; [reflexivity|].
  destruct (Ascii.eqb c underscore); simpl; [discriminate|].
  intros H. by rewrite (IH H).
Qed.

Lemma split_first_found city state :
  occurrences underscore city = 0%nat ->
  split_first underscore (city +:+ String underscore state) = Some (city, state).
Proof.
  induction city as [|c city IH]; simpl; [reflexivity|].
  destruct (Ascii.eqb c underscore); simpl; [discriminate|].
  intros H. by rewrite (IH H).
Qed.

Lemma format_city_state_list_loop l acc :
  fold_left
    (fun formatted_list cs =>
       match split_first underscore cs with
       | Some (city, state) =>
           if negb (String.eqb (lower state) "unknown")
           then formatted_list ++ [city +:+ ", " +:+ state]
           else formatted_list ++ [city]
       | None => formatted_list ++ [cs]
       end) l acc
  = acc ++ map format_city_state_str l.
Proof.
  revert acc. induction l as [|cs l IH]; intros acc; simpl; [by rewrite app_nil_r|].
  rewrite IH. unfold format_city_state_str.
  destruct (split_first underscore cs) as [[city state]|];
    [destruct (negb (String.eqb (lower state) "unknown"))|];
    by rewrite <- app_assoc.
Qed.

(** X18: for a city name without underscore, [format_city_state] turns
    "city_state" into "city, state", and into "city" alone when the state
    is "unknown" in any mix of upper and lower case; a string without
    underscore is returned as it is; and a list is formatted element by
    element in the same way. *)
Theorem format_city_state_cases :
  (forall city state, occurrences underscore city = 0%nat ->
     format_city_state_str (city +:+ "_" +:+ state)
     = if String.eqb (lower state) "unknown" then city else city +:+ ", " +:+ state) /\
  (forall s, occurrences underscore s = 0%nat -> format_city_state_str s = s) /\
  (forall l, format_city_state_list l = map format_city_state_str l).
Proof.
  split; [|split].
  - intros city state Hcity. unfold format_city_state_str.
    change (city +:+ "_" +:+ state) with (city +:+ String underscore state).
    rewrite split_first_found by exact Hcity.
    by destruct (String.eqb (lower state) "unknown").
  - intros s Hs. unfold format_city_state_str. by rewrite split_first_none.
  - intros l. unfold format_city_state_list. by rewrite format_city_state_list_loop.
Qed.

Example format_city_state_samples :
  format_city_state_list ["Delft_unknown"; "Austin_TX"; "Paris_UnKnOwN"; "Rome"]%string
  = ["Delft"; "Austin, TX"; "Paris"; "Rome"]%string.
Proof. reflexivity. Qed.

(** ** Annotations of the scatter plot *)




Example annotations_sample :
  adjust_annotation_positions
    [mkAnnotation 0.5 0.5 "a"; mkAnnotation 0.55 0.5 "b"; mkAnnotation 0.9 0.9 "c";
     mkAnnotation 0.5 0.45 "d"]
  = [mkAnnotation 0.5 0.5 "a"; mkAnnotation 0.55 (0.5 + 0.01) "b";
     mkAnnotation 0.9 0.9 "c"; mkAnnotation 0.5 (0.45 + 0.01 + 0.01) "d"].
Proof. reflexivity. Qed.

(** ** The correlator on the output of the analysis loop *)

Lemma dict_get_unique {V} (d : list (video_key * V)) key v :
  NoDup (map fst d) -> (key, v) ∈ d -> dict_get d key = Some v.
Proof.
  induction d as [|[k0 v0] d IH]; intros Hnd Hin; [by apply elem_of_nil in Hin|].
  simpl in *. apply NoDup_cons in Hnd as [Hk0 Hnd].
  destruct (decide (k0 = key)) as [->|Hne].
  - apply elem_of_cons in Hin as [[= ->]|Hin]; [reflexivity|].
    exfalso. apply Hk0. apply list_elem_of_fmap. by exists (key, v).
  - apply elem_of_cons in Hin as [[= -> ->]|Hin]; [contradiction|]. by apply IH.
Qed.

Lemma classify_event_present df counters id time :
  with_unique_id id df <> [] ->
  exists counters', classify_event (Some df) counters (id, time) = Ok counters'.
Proof.
  intros Hne. destruct counters as [a b]. unfold classify_event, labelled.
  set (U := fun ir : nat * row => Unique_Id ir.2 =? id).
  assert (HG : map snd (List.filter U (zip (seq 0 (length df)) df)) = with_unique_id id df)
    by apply (filter_labelled_rows (fun r => Unique_Id r =? id)).
  destruct (List.filter U (zip (seq 0 (length df)) df)) as [|[i r] G] eqn:EG.
  { simpl in HG. by rewrite <- HG in Hne. }
  simpl. unfold index_last. rewrite last_cons.
  destruct (last G) as [[g rg]|]; simpl; eauto.
Qed.

Lemma items_in_order_elem ids (var : gmap Z Q) id time :
  (id, time) ∈ items_in_order ids var -> id ∈ ids.
Proof.
  unfold items_in_order. intros H. apply list_elem_of_omap in H as (i & Hi & Hsome).
  destruct (var !! i); [|discriminate]. injection Hsome as -> _. exact Hi.
Qed.

Lemma analyse_tables_origin df_mapping dfs counts data :
  analyse_tables df_mapping dfs = Ok (counts, data) ->
  forall entry, entry ∈ data ->
    exists df var,
      (entry.1, df) ∈ dfs /\
      time_to_cross df_mapping df
        (pedestrian_crossing df road_min_x road_max_x 0).2 entry.1 = Ok var /\
      entry.2 = items_in_order (pedestrian_crossing df road_min_x road_max_x 0).2 var.
Proof.
  intros Hrun.
  pose (I := fun (visited : list (video_key * dataframe))
                 (acc : list (video_key * (nat * list Z))
                        * list (video_key * list (Z * Q))) =>
               forall entry, entry ∈ acc.2 ->
                 exists df var,
                   (entry.1, df) ∈ visited /\
                   time_to_cross df_mapping df
                     (pedestrian_crossing df road_min_x road_max_x 0).2 entry.1 = Ok var /\
                   entry.2
                   = items_in_order (pedestrian_crossing df road_min_x road_max_x 0).2 var).
  assert (Hinv : I dfs (counts, data)).
  { revert Hrun. apply (for_each_invariant _ I).
    - intros entry H. by apply elem_of_nil in H.
    - intros visited [key df] [counts0 data0] acc' HI Hstep entry Hentry.
      unfold analyse_table in Hstep.
      destruct (pedestrian_crossing df road_min_x road_max_x 0) as [count ids] eqn:Epc.
      destruct (time_to_cross df_mapping df ids key) as [var|e] eqn:Etime; [|discriminate].
      simpl in Hstep. injection Hstep as <-. simpl in Hentry.
      apply elem_of_app in Hentry as [Hentry|Hentry].
      + destruct (HI entry Hentry) as (df' & var' & Hin & Htime & Hitems).
        exists df', var'. split; [apply elem_of_app; by left|]. by split.
      + apply list_elem_of_singleton in Hentry. subst entry.
        exists df, var. rewrite Epc. simpl.
        split; [apply elem_of_app; right; left|]. by split. }
  exact Hinv.
Qed.

(** X20: on the crossing times that the analysis loop of the main block
    computes from tables with distinct keys,
    [crossing_event_wt_traffic_equipment] never raises: every timed
    identity has its rows in the table of its segment. *)
Theorem correlator_succeeds_after_analysis df_mapping dfs counts data :
  NoDup (map fst dfs) ->
  analyse_tables df_mapping dfs = Ok (counts, data) ->
  exists st, crossing_event_wt_traffic_equipment df_mapping dfs data = Ok st.
Proof.
  intros Hkeys Hrun. unfold crossing_event_wt_traffic_equipment.
  apply for_each_total. intros [key items] st Hentry.
  destruct (analyse_tables_origin _ _ _ _ Hrun _ Hentry) as (df & var & Hin & Htime & Hitems).
  simpl in Hin, Htime, Hitems. unfold equipment_segment.
  unfold time_to_cross in Htime.
  destruct (find_values_with_video_id df_mapping key) as [[s|]|e];
    [| simpl; eauto | discriminate].
  unfold mbind at 1, outcome_bind at 1. cbv beta iota.
  rewrite (dict_get_unique dfs key df Hkeys Hin).
  destruct (for_each_total (classify_event (Some df)) items (0, 0)) as [[ce cn] Hinner].
  { intros [id time] counters Hevent. apply classify_event_present.
    rewrite Hitems in Hevent. apply items_in_order_elem in Hevent.
    by apply (crossing_ids_have_tracks df road_min_x road_max_x 0). }
  rewrite Hinner. simpl. eauto.
Qed.

Lemma correlator_succeeds_after_analysis_witness :
  exists st,
    crossing_event_wt_traffic_equipment Samples.mapping Samples.dfs MoreSamples.analysed_data
    = Ok st.
Proof.
  apply (correlator_succeeds_after_analysis Samples.mapping Samples.dfs
           MoreSamples.analysed_counts MoreSamples.analysed_data).
  - repeat constructor. intros H. by apply elem_of_nil in H.
  - vm_compute. reflexivity.
Defined.

(** ** The speed stage on the output of the analysis loop *)

Lemma Qpos_nonzero q : (0 < q)%Q -> ~ (q == 0)%Q.
Proof. intros Hq Heq. rewrite Heq in Hq. by apply (Qlt_irrefl 0). Qed.

Lemma Qdiv_pos a b : (0 < a)%Q -> (0 < b)%Q -> (0 < a / b)%Q.
Proof.
  intros Ha Hb. apply Qlt_shift_div_l; [exact Hb|]. by rewrite Qmult_0_l.
Qed.

Lemma fold_Qplus_pos values : forall a,
  (0 < a)%Q -> (forall v, v ∈ values -> (0 < v)%Q) -> (0 < fold_left Qplus values a)%Q.
Proof.
  induction values as [|x values IH]; intros a Ha Hpos; simpl; [exact Ha|].
  apply IH; [|intros v Hv; apply Hpos; by right].
  rewrite <- (Qplus_0_r 0). apply Qplus_lt_le_compat; [exact Ha|].
  apply Qlt_le_weak, Hpos. left.
Qed.

Lemma series_mean_pos values :
  values <> [] -> (forall v, v ∈ values -> (0 < v)%Q) -> (0 < series_mean values)%Q.
Proof.
  intros Hne Hpos. unfold series_mean. apply Qdiv_pos.
  - destruct values as [|x values]; [contradiction|]. unfold Qsum. simpl.
    apply fold_Qplus_pos; [|intros v Hv; apply Hpos; by right].
    rewrite Qplus_0_l. apply Hpos. left.
  - destruct values as [|x values]; [contradiction|].
    change 0%Q with (inject_Z 0). rewrite <- Zlt_Qlt. simpl. lia.
Qed.

Lemma rows_walked_positive x xs : (1 <= rows_walked (x :: xs))%nat.
Proof.
  unfold rows_walked.
  destruct (first_index (series_min x xs) (x :: xs)
            <? first_index (series_max x xs) (x :: xs))%nat; lia.
Qed.

Lemma crossing_speed_defined df s id time :
  with_unique_id id df <> [] ->
  (forall r, r ∈ df -> (0 < Height r)%Q) ->
  (0 < seg_avg_height s)%Q ->
  (0 < time)%Q ->
  exists speed_, crossing_speed (Some df) s (id, time) = Ok speed_.
Proof.
  intros Hne Hheight Havg Htime. unfold crossing_speed.
  destruct (map X_center (with_unique_id id df)) as [|x xs] eqn:Exs.
  { destruct (with_unique_id id df); [contradiction | discriminate]. }
  assert (Hmean : (0 < series_mean (map Height (with_unique_id id df)))%Q).
  { apply series_mean_pos.
    - destruct (with_unique_id id df); [contradiction | discriminate].
    - intros v Hv. apply list_elem_of_fmap in Hv as (r & -> & Hr).
      apply elem_of_with_unique_id in Hr as [Hr _]. by apply Hheight. }
  rewrite divide_nonzero by (by apply Qpos_nonzero). simpl.
  rewrite divide_nonzero by (by apply Qpos_nonzero, Qdiv_pos). simpl.
  rewrite divide_nonzero by (by apply Qpos_nonzero). simpl. eauto.
Qed.

(** X21: when every detection has a positive height and every row of the
    mapping table a positive average height and positive frame rates,
    [calculate_speed_of_crossing] never raises on the crossing times that
    the analysis loop of the main block computes from tables with distinct
    keys: no group is missing and no division is by zero. *)
Theorem speed_stage_succeeds_after_analysis df_mapping dfs counts data :
  NoDup (map fst dfs) ->
  (forall key df r, (key, df) ∈ dfs -> r ∈ df -> (0 < Height r)%Q) ->
  (forall r, r ∈ df_mapping ->
     (0 < avg_height r)%Q /\ forall fps, fps ∈ fps_list r -> (0 < fps)%Q) ->
  analyse_tables df_mapping dfs = Ok (counts, data) ->
  exists speed_dict, calculate_speed_of_crossing df_mapping dfs data = Ok speed_dict.
Proof.
  intros Hkeys Hheight Hmapping Hrun. unfold calculate_speed_of_crossing.
  apply for_each_total. intros [key items] acc Hentry.
  destruct (analyse_tables_origin _ _ _ _ Hrun _ Hentry) as (df & var & Hin & Htime & Hitems).
  simpl in Hin, Htime, Hitems. unfold speed_of_segment.
  destruct items as [|event items]; [eauto|].
  unfold time_to_cross in Htime.
  destruct (find_values_with_video_id df_mapping key) as [[s|]|e] eqn:Efind;
    [| simpl; eauto | discriminate].
  unfold mbind at 1, outcome_bind at 1. cbv beta iota.
  rewrite (dict_get_unique dfs key df Hkeys Hin).
  destruct (find_values_found _ _ _ Efind)
    as (r & Hr & i & j & starts & ends & tods & Hseg).
  destruct Hseg as (_ & _ & _ & _ & _ & _ & _ & Hfps & _ & _ & _ & _ & _ & _ & Havg & _).
  destruct (Hmapping r Hr) as [Havg_pos Hfps_pos].
  assert (Hfps' : (0 < seg_fps s)%Q).
  { apply Hfps_pos. apply list_elem_of_lookup. eauto. }
  set (ids := (pedestrian_crossing df road_min_x road_max_x 0).2) in *.
  simpl in Htime.
  destruct (time_to_cross_loop df (seg_fps s) ids ∅) as (var' & Hrun' & Hstored & _);
    [intros id; apply crossing_ids_have_tracks | by apply Qpos_nonzero |].
  assert (Hsame : Ok var = Ok var') by (etrans; [symmetry; exact Htime | exact Hrun']).
  injection Hsame as <-.
  apply for_each_total. intros [id time] d Hevent.
  rewrite Hitems in Hevent.
  assert (Hid : id ∈ ids) by (by apply (items_in_order_elem ids var id time)).
  assert (Htime_pos : (0 < time)%Q).
  { unfold items_in_order in Hevent.
    apply list_elem_of_omap in Hevent as (id' & Hid' & Hsome).
    rewrite (Hstored _ Hid') in Hsome. injection Hsome as <- <-.
    unfold seconds_walked.
    destruct (map X_center (with_unique_id id' df)) as [|x xs] eqn:Exs.
    { exfalso. apply (crossing_ids_have_tracks _ _ _ _ _ Hid').
      by destruct (with_unique_id id' df). }
    apply Qdiv_pos; [|exact Hfps'].
    change 0%Q with (inject_Z 0). rewrite <- Zlt_Qlt.
    pose proof (rows_walked_positive x xs). lia. }
  destruct (crossing_speed_defined df s id time) as [speed_ Hspeed].
  - by apply (crossing_ids_have_tracks df road_min_x road_max_x 0).
  - intros r0 Hr0. by apply (Hheight key df).
  - by rewrite Havg.
  - exact Htime_pos.
  - unfold speed_of_event. rewrite Hspeed. simpl.
    destruct (Qlt_le_dec speed_limit speed_); eauto.
Qed.

Lemma speed_stage_succeeds_after_analysis_witness :
  exists speed_dict,
    calculate_speed_of_crossing Samples.mapping Samples.dfs MoreSamples.analysed_data
    = Ok speed_dict.
Proof.
  apply (speed_stage_succeeds_after_analysis Samples.mapping Samples.dfs
           MoreSamples.analysed_counts MoreSamples.analysed_data).
  - repeat constructor. intros H. by apply elem_of_nil in H.
  - intros key df r Hin Hr. apply list_elem_of_singleton in Hin. injection Hin as -> ->.
    unfold Samples.walker in Hr.
    repeat (apply elem_of_cons in Hr as [->|Hr]; [reflexivity|]).
    by apply elem_of_nil in Hr.
  - intros r Hr. apply list_elem_of_singleton in Hr. subst r. split; [reflexivity|].
    intros fps Hfps. apply list_elem_of_singleton in Hfps. subst fps. reflexivity.
  - vm_compute. reflexivity.
Defined.

(** ** The crossing detector and the order of the rows *)

(** X22: [pedestrian_crossing] does not depend on the order of the rows:
    on any rearrangement of the table it reports the same identities, in
    some order, and the same count. *)
Theorem crossings_ignore_row_order df df' min_x max_x person_id :
  df ≡ₚ df' ->
  (pedestrian_crossing df min_x max_x person_id).2
    ≡ₚ (pedestrian_crossing df' min_x max_x person_id).2 /\
  (pedestrian_crossing df min_x max_x person_id).1
  = (pedestrian_crossing df' min_x max_x person_id).1.
Proof.
  intros Hperm.
  assert (Hids : (pedestrian_crossing df min_x max_x person_id).2
                 ≡ₚ (pedestrian_crossing df' min_x max_x person_id).2).
  { apply NoDup_Permutation; [apply NoDup_unique | apply NoDup_unique |].
    intros id. rewrite !elem_of_pedestrian_crossing.
    split; intros [(r1 & H1 & Hr1) (r2 & H2 & Hr2)]; split.
    - exists r1. split; [by rewrite <- Hperm | exact Hr1].
    - exists r2. split; [by rewrite <- Hperm | exact Hr2].
    - exists r1. split; [by rewrite Hperm | exact Hr1].
    - exists r2. split; [by rewrite Hperm | exact Hr2]. }
  split; [exact Hids|].
  change ((pedestrian_crossing df min_x max_x person_id).1)
    with (length (pedestrian_crossing df min_x max_x person_id).2).
  change ((pedestrian_crossing df' min_x max_x person_id).1)
    with (length (pedestrian_crossing df' min_x max_x person_id).2).
  by rewrite Hids.
Qed.

Lemma crossings_ignore_row_order_witness :
  (pedestrian_crossing Samples.walker 0.45 0.55 0).2
    ≡ₚ (pedestrian_crossing (reverse Samples.walker) 0.45 0.55 0).2 /\
  (pedestrian_crossing Samples.walker 0.45 0.55 0).1
  = (pedestrian_crossing (reverse Samples.walker) 0.45 0.55 0).1.
Proof.
  apply (crossings_ignore_row_order Samples.walker (reverse Samples.walker) 0.45 0.55 0).
  symmetry. apply reverse_Permutation.
Defined.

(** ** Normalisation of a key without duration *)

Lemma equipment_same_keys df_mapping dfs data st :
  crossing_event_wt_traffic_equipment df_mapping dfs data = Ok st ->
  forall k, is_Some (time_ st !! k) ->
    is_Some (counter_1 st !! k) /\ is_Some (counter_2 st !! k)
    /\ is_Some (population_ st !! k).
Proof.
  intros Hrun.
  pose (I := fun (_ : list (video_key * list (Z * Q))) (st : equipment_state) =>
               forall k, is_Some (time_ st !! k) ->
                 is_Some (counter_1 st !! k) /\ is_Some (counter_2 st !! k)
                 /\ is_Some (population_ st !! k)).
  assert (Hinv : I data st).
  { revert Hrun. apply (for_each_invariant _ I).
    - intros k [t Ht]. simpl in Ht. by rewrite lookup_empty in Ht.
    - intros visited [key df] s0 s1 HI Hstep k. unfold equipment_segment in Hstep.
      destruct (find_values_with_video_id df_mapping key) as [[s|]|e];
        simpl in Hstep; try discriminate.
      + outcome_inv Hstep. destruct a as [ce cn]. injection Hstep as <-.
        cbn [time_ counter_1 counter_2 population_]. rewrite !lookup_insert.
        destruct (decide (aggregate_key s = k)) as [<-|Hne]; [eauto|].
        intros Ht. apply HI.
        destruct (time_ s0 !! aggregate_key s); by rewrite lookup_insert_ne in Ht.
      + injection Hstep as <-. apply HI. }
  exact Hinv.
Qed.

Lemma for_each_raises {A S} (body : S -> A -> outcome S) xs s0 e :
  for_each body xs s0 = Raise e ->
  exists x s, x ∈ xs /\ body s x = Raise e.
Proof.
  revert s0. induction xs as [|x xs IH]; intros s0; simpl; [discriminate|].
  destruct (body s0 x) as [s1|e'] eqn:E; simpl.
  - intros H. destruct (IH _ H) as (y & s & Hy & Hraise).
    exists y, s. split; [by right | exact Hraise].
  - intros [= <-]. exists x, s0. split; [left | exact E].
Qed.

Lemma per_minute_per_head_raises counts time population key e :
  is_Some (counts !! key) -> is_Some (time !! key) -> is_Some (population !! key) ->
  per_minute_per_head counts time population key = Raise e -> e = ZeroDivisionError.
Proof.
  intros [c Hc] [t Ht] [p Hp]. unfold per_minute_per_head, subscript.
  rewrite Hc, Ht, Hp. simpl. unfold divide.
  destruct (Qeq_bool (inject_Z t) 0); simpl; [by intros [= <-]|].
  destruct (Qeq_bool p 0); [by intros [= <-] | discriminate].
Qed.

(** X23: when the segments under some aggregate key have a cumulative
    duration of zero, [crossing_event_wt_traffic_equipment] still returns,
    but [nomalised_crossing_wth_traffic_equipment] raises
    [ZeroDivisionError] and returns no rate at all. *)
Theorem normalisation_fails_without_duration df_mapping dfs data st k :
  crossing_event_wt_traffic_equipment df_mapping dfs data = Ok st ->
  time_ st !! k = Some 0 ->
  nomalised_crossing_wth_traffic_equipment df_mapping dfs data = Raise ZeroDivisionError.
Proof.
  intros Hrun Hzero.
  destruct (nomalised_crossing_wth_traffic_equipment df_mapping dfs data)
    as [[var_exist var_nt_exist]|e] eqn:Enorm.
  - exfalso. destruct (nomalised_rates _ _ _ _ _ Enorm) as (st' & Hrun' & H1 & _ & H3).
    rewrite Hrun in Hrun'. injection Hrun' as <-.
    destruct (H3 k) as [[v Hv] _]; [eauto|].
    apply H1 in Hv. unfold per_minute_per_head in Hv. outcome_inv Hv.
    apply subscript_ok in E0. rewrite Hzero in E0. injection E0 as <-.
    apply divide_ok in E1 as [Hne _]. apply Hne. reflexivity.
  - f_equal. unfold nomalised_crossing_wth_traffic_equipment in Enorm.
    rewrite Hrun in Enorm. simpl in Enorm.
    apply for_each_raises in Enorm as ([k' t'] & [ve vn] & Hin & Hraise).
    apply elem_of_map_to_list in Hin. simpl in Hraise.
    destruct (equipment_same_keys _ _ _ _ Hrun k') as (Hc1 & Hc2 & Hp); [eauto|].
    destruct (per_minute_per_head (counter_1 st) (time_ st) (population_ st) k')
      as [a|e1] eqn:E1; simpl in Hraise.
    + destruct (per_minute_per_head (counter_2 st) (time_ st) (population_ st) k')
        as [b|e2] eqn:E2; simpl in Hraise; [discriminate|].
      injection Hraise as <-.
      by apply (per_minute_per_head_raises (counter_2 st) (time_ st) (population_ st) k').
    + injection Hraise as <-.
      by apply (per_minute_per_head_raises (counter_1 st) (time_ st) (population_ st) k').
Qed.

Lemma normalisation_fails_without_duration_witness :
  nomalised_crossing_wth_traffic_equipment
    MoreSamples.mapping_no_duration Samples.dfs_lights MoreSamples.data_two
  = Raise ZeroDivisionError.
Proof.
  apply (normalisation_fails_without_duration MoreSamples.mapping_no_duration
           Samples.dfs_lights MoreSamples.data_two MoreSamples.state_no_duration
           "Delft_unknown_0").
  - vm_compute. reflexivity.
  - reflexivity.
Defined.
